(** * Capture: rolling frame history, triggered clip writers, threaded reader

    A shallow embedding of [VidUtils.py]: the two clip writers
    ([KeyClipWriter], [ShortClipWriter]) and the threaded capture reader
    ([VideoStream]), together with the small part of Python and OpenCV they
    rest on ([collections.deque], [queue.Queue], [cv2.VideoWriter],
    [os.remove], exceptions).

    Methods are written in a state-and-exception monad over the object and
    the outside world; background threads are small-step machines whose
    program counter sits at the shared-memory accesses of the thread body, and
    the interleaving with the calling thread is an explicit schedule. *)

From stdpp Require Import gmap strings list.

Set Default Proof Using "Type".

(** ** Python values and effects *)

(** The exceptions the modelled code can raise. *)
Inductive Exn : Set :=
| IndexError          (* indexing an empty deque *)
| AttributeError      (* a method call on [None] *)
| TypeError           (* [os.remove(None)] *)
| FileNotFoundError.  (* [os.remove] of a path that is not there *)

(** Outcome of a call: normal return, an exception (the state keeps every
    assignment made before the raise), or a call that has not returned
    within the number of scheduler steps it was given. *)
Inductive Res (S A : Type) : Type :=
| Ok (a : A) (s : S)
| Raise (e : Exn) (s : S)
| Blocked (s : S).
Arguments Ok {S A} a s.
Arguments Raise {S A} e s.
Arguments Blocked {S A} s.

Definition M (S A : Type) : Type := S -> Res S A.

Definition ret {S A} (a : A) : M S A := fun s => Ok a s.

Definition bind {S A B} (c : M S A) (k : A -> M S B) : M S B :=
  fun s => match c s with
           | Ok a s' => k a s'
           | Raise e s' => Raise e s'
           | Blocked s' => Blocked s'
           end.

Definition raise {S A} (e : Exn) : M S A := fun s => Raise e s.
Definition gets {S A} (f : S -> A) : M S A := fun s => Ok (f s) s.
Definition modify {S} (f : S -> S) : M S unit := fun s => Ok tt (f s).

(** [obj.attr] where [obj] may be [None]. *)
Definition deref {S A} (o : option A) : M S A :=
  match o with
  | Some a => ret a
  | None => raise AttributeError
  end.

Declare Scope py_scope.
Delimit Scope py_scope with py.
Notation "x <- c ;; k" := (bind c (fun x => k))
  (at level 100, c at next level, k at level 200, right associativity,
   only parsing) : py_scope.
Notation "c ;; k" := (bind c (fun _ => k))
  (at level 100, k at level 200, right associativity, only parsing) : py_scope.
Open Scope py_scope.

(** The state a result carries, whatever the outcome. *)
Definition state_of {S A} (r : Res S A) : S :=
  match r with
  | Ok _ s | Raise _ s | Blocked s => s
  end.

(** ** Frames *)

(** A frame is a numpy array; the code only reads its [shape]
    (rows, columns) and otherwise passes it around. *)
Record Frame : Set := mkFrame { shape : nat * nat; pixels : nat }.

(** ** [collections.deque] with [maxlen] *)

(** [deque.append]: add on the right, then drop from the left when the
    length exceeds [maxlen]. *)
Definition deque_append {A} (maxlen : nat) (d : list A) (x : A) : list A :=
  let d' := d ++ [x] in
  if decide (maxlen < length d') then tail d' else d'.

(** [deque.appendleft]: add on the left, then drop from the right when the
    length exceeds [maxlen]. *)
Definition deque_appendleft {A} (maxlen : nat) (d : list A) (x : A) : list A :=
  let d' := x :: d in
  if decide (maxlen < length d') then removelast d' else d'.

(** [d[i]] for [i >= 0]. *)
Definition deque_index {S A} (d : list A) (i : nat) : M S A :=
  match d !! i with
  | Some a => ret a
  | None => raise IndexError
  end.

(** ** The outside world: [cv2.VideoWriter] objects and the file system *)

(** A [cv2.VideoWriter] object. [vw_opened] is [isOpened()] right after
    construction; [vw_log] is the sequence of frames passed to [write] before
    [release]. *)
Record VideoWriter : Type := mkVideoWriter {
  vw_path : string;
  vw_fourcc : string;
  vw_fps : nat;
  vw_size : nat * nat;
  vw_isColor : bool;
  vw_opened : bool;
  vw_log : list Frame;
  vw_released : bool
}.

(** [openable] says for which paths the encoder can create its output file;
    [fs] is the set of paths present on disk; [sinks] is the heap of
    [VideoWriter] objects, a reference being an index into it. *)
Record World : Type := mkWorld {
  openable : string -> bool;
  fs : gset string;
  sinks : list VideoWriter
}.

Definition vw_write (f : Frame) (k : VideoWriter) : VideoWriter :=
  if vw_released k then k
  else mkVideoWriter (vw_path k) (vw_fourcc k) (vw_fps k) (vw_size k)
         (vw_isColor k) (vw_opened k) (vw_log k ++ [f]) (vw_released k).

Definition vw_release (k : VideoWriter) : VideoWriter :=
  mkVideoWriter (vw_path k) (vw_fourcc k) (vw_fps k) (vw_size k)
    (vw_isColor k) (vw_opened k) (vw_log k) true.

(** [cv2.VideoWriter(path, fourcc, fps, size, isColor)]: never raises; the
    file is created when the path can be opened. *)
Definition VideoWriter_new (path fourcc : string) (fps : nat)
    (size : nat * nat) (isColor : bool) : M World nat :=
  fun w =>
    let ok := openable w path in
    Ok (length (sinks w))
       (mkWorld (openable w)
          (if ok then {[ path ]} ∪ fs w else fs w)
          (sinks w ++ [mkVideoWriter path fourcc fps size isColor ok [] false])).

Definition VideoWriter_write (r : nat) (f : Frame) : M World unit :=
  modify (fun w => mkWorld (openable w) (fs w) (alter (vw_write f) r (sinks w))).

Definition VideoWriter_release (r : nat) : M World unit :=
  modify (fun w => mkWorld (openable w) (fs w) (alter vw_release r (sinks w))).

(** [os.remove(path)]. *)
Definition os_remove (path : string) : M World unit :=
  fun w =>
    if decide (path ∈ fs w)
    then Ok tt (mkWorld (openable w) (fs w ∖ {[ path ]}) (sinks w))
    else Raise FileNotFoundError w.

(** An object together with the world it acts on. *)
Record Sys (T : Type) : Type := mkSys { self : T; world : World }.
Arguments mkSys {T} self world.
Arguments self {T} s.
Arguments world {T} s.

Definition on_self {T} (f : T -> T) : M (Sys T) unit :=
  modify (fun s => mkSys (f (self s)) (world s)).

Definition on_world {T A} (c : M World A) : M (Sys T) A :=
  fun s => match c (world s) with
           | Ok a w => Ok a (mkSys (self s) w)
           | Raise e w => Raise e (mkSys (self s) w)
           | Blocked w => Blocked (mkSys (self s) w)
           end.

(** ** [KeyClipWriter] *)

Module KeyClipWriter.

(** Where the writer thread stands in the body of [write]: before each
    access to shared state. *)
Inductive Pc : Type :=
| AtFlag                  (* [if not self.recording: return] *)
| AtEmpty                 (* [if not self.Q.empty():] *)
| AtGet                   (* [frame = self.Q.get()] *)
| AtWrite (frame : Frame) (* [self.writer.write(frame)] *)
| AtSleep                 (* [time.sleep(self.timeout)] *)
| Exited.                 (* the thread has returned *)

(** The object's attributes. [frames] lists the deque from index 0;
    [Q] is the [Queue], oldest item first; [writer] is a reference into the
    world's [sinks]; [thread] is the [Thread] object, given by the point its
    execution has reached. The [timeout] attribute only feeds
    [time.sleep] and is left out. *)
Record t : Type := mk {
  bufSize : nat;
  frames : list Frame;
  Q : option (list Frame);
  writer : option nat;
  thread : option Pc;
  recording : bool;
  outputPath : option string;
  isColor : bool
}.

(** [__init__(bufSize)] *)
Definition init (bufSize : nat) : t :=
  mk bufSize [] None None None false None true.

Definition set_frames (v : list Frame) (o : t) : t :=
  mk (bufSize o) v (Q o) (writer o) (thread o) (recording o) (outputPath o) (isColor o).
Definition set_Q (v : option (list Frame)) (o : t) : t :=
  mk (bufSize o) (frames o) v (writer o) (thread o) (recording o) (outputPath o) (isColor o).
Definition set_writer (v : option nat) (o : t) : t :=
  mk (bufSize o) (frames o) (Q o) v (thread o) (recording o) (outputPath o) (isColor o).
Definition set_thread (v : option Pc) (o : t) : t :=
  mk (bufSize o) (frames o) (Q o) (writer o) v (recording o) (outputPath o) (isColor o).
Definition set_recording (v : bool) (o : t) : t :=
  mk (bufSize o) (frames o) (Q o) (writer o) (thread o) v (outputPath o) (isColor o).
Definition set_outputPath (v : option string) (o : t) : t :=
  mk (bufSize o) (frames o) (Q o) (writer o) (thread o) (recording o) v (isColor o).

(** [self.Q.put(frame)] *)
Definition Q_put (frame : Frame) : M (Sys t) unit :=
  q <- gets (fun s => Q (self s)) ;;
  q <- deref q ;;
  on_self (set_Q (Some (q ++ [frame]))).

(** [self.writer.write(frame)] *)
Definition writer_write (frame : Frame) : M (Sys t) unit :=
  w <- gets (fun s => writer (self s)) ;;
  w <- deref w ;;
  on_world (VideoWriter_write w frame).

(** [self.writer.release()] *)
Definition writer_release : M (Sys t) unit :=
  w <- gets (fun s => writer (self s)) ;;
  w <- deref w ;;
  on_world (VideoWriter_release w).

Definition update (frame : Frame) : M (Sys t) unit :=
  on_self (fun o => set_frames (deque_appendleft (bufSize o) (frames o) frame) o) ;;
  rec <- gets (fun s => recording (self s)) ;;
  if rec then Q_put frame else ret tt.

(** The loop of [start]: [for i in range(len(self.frames), 0, -1)], the
    argument being the number of values of [i] still to visit. *)
Fixpoint start_loop (i : nat) : M (Sys t) unit :=
  match i with
  | 0 => ret tt
  | S j =>
      fr <- gets (fun s => frames (self s)) ;;
      f <- deque_index fr j ;;
      Q_put f ;;
      start_loop j
  end.

(** [start]. The model keeps one writer thread, the one [self.thread]
    refers to: the last step puts the new thread in that slot. This is the
    code's behaviour when no earlier writer thread is still running
    ([no_thread] below), which is how the recorder is used (a recording is
    ended by [finish] or [terminate] before the next one starts); statements
    about a recording carry that hypothesis. *)
Definition start (outputPath fourcc : string) (fps : nat) (isColor : bool)
  : M (Sys t) unit :=
  on_self (set_recording true) ;;
  on_self (set_outputPath (Some outputPath)) ;;
  fr <- gets (fun s => frames (self s)) ;;
  f0 <- deque_index fr 0 ;;
  f0' <- deque_index fr 0 ;;
  w <- on_world (VideoWriter_new outputPath fourcc fps
                   (snd (shape f0), fst (shape f0')) isColor) ;;
  on_self (set_writer (Some w)) ;;
  on_self (set_Q (Some [])) ;;
  n <- gets (fun s => length (frames (self s))) ;;
  start_loop n ;;
  on_self (set_thread (Some AtFlag)).

(** One step of the writer thread, the body of [write]. A step that raises
    ends the thread. *)
Definition write_step (s : Sys t) : Sys t :=
  let goto pc := mkSys (set_thread (Some pc) (self s)) (world s) in
  match thread (self s) with
  | Some AtFlag => if recording (self s) then goto AtEmpty else goto Exited
  | Some AtEmpty =>
      match Q (self s) with
      | Some [] => goto AtSleep
      | Some (_ :: _) => goto AtGet
      | None => goto Exited
      end
  | Some AtGet =>
      match Q (self s) with
      | Some (f :: q) => mkSys (set_thread (Some (AtWrite f)) (set_Q (Some q) (self s))) (world s)
      | Some [] => s
      | None => goto Exited
      end
  | Some (AtWrite f) =>
      match writer_write f s with
      | Ok _ s' => mkSys (set_thread (Some AtFlag) (self s')) (world s')
      | _ => goto Exited
      end
  | Some AtSleep => goto AtFlag
  | Some Exited | None => s
  end.

(** [self.thread.join()]: the caller waits while the writer thread runs;
    [fuel] bounds the number of thread steps waited for. *)
Fixpoint join (fuel : nat) (s : Sys t) {struct fuel} : Res (Sys t) unit :=
  match thread (self s) with
  | None => Raise AttributeError s
  | Some Exited => Ok tt s
  | Some _ =>
      match fuel with
      | 0 => Blocked s
      | S k => join k (write_step s)
      end
  end.

(** The loop of [flush]; the argument bounds the iterations, one per frame
    in the queue. *)
Fixpoint flush_loop (n : nat) : M (Sys t) unit :=
  match n with
  | 0 => ret tt
  | S k =>
      q <- gets (fun s => Q (self s)) ;;
      q <- deref q ;;
      match q with
      | [] => ret tt
      | frame :: q' =>
          on_self (set_Q (Some q')) ;;
          writer_write frame ;;
          flush_loop k
      end
  end.

Definition flush : M (Sys t) unit :=
  q <- gets (fun s => Q (self s)) ;;
  q <- deref q ;;
  flush_loop (length q).

Definition finish (fuel : nat) : M (Sys t) unit :=
  on_self (set_recording false) ;;
  join fuel ;;
  flush ;;
  writer_release.

Definition terminate (fuel : nat) : M (Sys t) unit :=
  on_self (set_recording false) ;;
  join fuel ;;
  writer_release ;;
  p <- gets (fun s => outputPath (self s)) ;;
  match p with
  | Some p => on_world (os_remove p)
  | None => raise TypeError
  end.

(** What happens between [start] and [finish]/[terminate]: the caller
    pushes frames, the writer thread takes steps, in any order. *)
Inductive Event : Type :=
| Update (frame : Frame)
| Tick.

Fixpoint run (evs : list Event) : M (Sys t) unit :=
  match evs with
  | [] => ret tt
  | Update frame :: evs' => update frame ;; run evs'
  | Tick :: evs' => modify write_step ;; run evs'
  end.

(** The frames a schedule passes to [update], in order. *)
Fixpoint pushed (evs : list Event) : list Frame :=
  match evs with
  | [] => []
  | Update frame :: evs' => frame :: pushed evs'
  | Tick :: evs' => pushed evs'
  end.

(** The rolling history read from its old end to its new end, the order in
    which [start] enqueues it. *)
Definition history (o : t) : list Frame := rev (frames o).

(** No writer thread is running. *)
Definition no_thread (o : t) : Prop :=
  thread o = None \/ thread o = Some Exited.

(** The frame the writer thread has taken from the queue and not yet
    written. *)
Definition in_flight (pc : option Pc) : list Frame :=
  match pc with
  | Some (AtWrite f) => [f]
  | _ => []
  end.

(** The log of the [VideoWriter] the object refers to. *)
Definition sink (s : Sys t) : option VideoWriter :=
  w ← writer (self s); sinks (world s) !! w.

End KeyClipWriter.

(** ** [ShortClipWriter] *)

Module ShortClipWriter.

(** A one-shot writer thread: started and not yet run, or finished with
    the exception that ended it, if any. *)
Inductive Thread : Type :=
| Started
| Exited (e : option Exn).

(** The object's attributes. [frames] and [Q] list their deques from
    index 0. [writer] is never assigned by any method and is left out. *)
Record t : Type := mk {
  bufSize : nat;
  rec_max_frames : nat;
  frames : list Frame;
  Q : option (list Frame);
  threads : list Thread;
  recording : bool;
  outputPath : option string;
  toolong : bool;
  fourcc : option string;
  fps : nat;
  is_color : bool
}.

(** [__init__(bufSize, max_frames)] *)
Definition init (bufSize max_frames : nat) : t :=
  mk bufSize max_frames [] None [] false None false None 30 true.

Definition set_frames (v : list Frame) (o : t) : t :=
  mk (bufSize o) (rec_max_frames o) v (Q o) (threads o) (recording o)
     (outputPath o) (toolong o) (fourcc o) (fps o) (is_color o).
Definition set_Q (v : option (list Frame)) (o : t) : t :=
  mk (bufSize o) (rec_max_frames o) (frames o) v (threads o) (recording o)
     (outputPath o) (toolong o) (fourcc o) (fps o) (is_color o).
Definition set_threads (v : list Thread) (o : t) : t :=
  mk (bufSize o) (rec_max_frames o) (frames o) (Q o) v (recording o)
     (outputPath o) (toolong o) (fourcc o) (fps o) (is_color o).
Definition set_recording (v : bool) (o : t) : t :=
  mk (bufSize o) (rec_max_frames o) (frames o) (Q o) (threads o) v
     (outputPath o) (toolong o) (fourcc o) (fps o) (is_color o).
Definition set_toolong (v : bool) (o : t) : t :=
  mk (bufSize o) (rec_max_frames o) (frames o) (Q o) (threads o) (recording o)
     (outputPath o) v (fourcc o) (fps o) (is_color o).
(** The four assignments of [start] that record the parameters. *)
Definition set_params (path fourcc : string) (fps : nat) (is_color : bool)
    (o : t) : t :=
  mk (bufSize o) (rec_max_frames o) (frames o) (Q o) (threads o) (recording o)
     (Some path) (toolong o) (Some fourcc) fps is_color.

(** [len(x)] where [x] may be [None]. *)
Definition py_len {S A} (o : option (list A)) : M S nat :=
  match o with
  | Some l => ret (length l)
  | None => raise TypeError
  end.

(** An argument of [cv2.VideoWriter] that must not be [None]. *)
Definition arg {S A} (o : option A) : M S A :=
  match o with
  | Some a => ret a
  | None => raise TypeError
  end.

Definition update (frame : Frame) : M (Sys t) unit :=
  on_self (fun o => set_frames (deque_append (bufSize o) (frames o) frame) o) ;;
  rec <- gets (fun s => recording (self s)) ;;
  if rec then
    q <- gets (fun s => Q (self s)) ;;
    n <- py_len q ;;
    L <- gets (fun s => rec_max_frames (self s)) ;;
    if decide (L < n) then on_self (set_toolong true)
    else
      q <- deref q ;;
      on_self (set_Q (Some (q ++ [frame])))
  else ret tt.

Definition start (output_path fourcc : string) (fps : nat) (is_color : bool)
  : M (Sys t) unit :=
  on_self (set_recording true) ;;
  on_self (set_toolong false) ;;
  on_self (set_params output_path fourcc fps is_color) ;;
  on_self (set_Q (Some [])) ;;
  on_self (fun o => set_Q (Some (default [] (Q o) ++ frames o)) o).

(** The loop of [write]: pop from the left and write until the copy is
    empty. *)
Fixpoint write_loop (w : nat) (framelist : list Frame) : M (Sys t) unit :=
  match framelist with
  | [] => ret tt
  | frame :: rest => on_world (VideoWriter_write w frame) ;; write_loop w rest
  end.

(** The body of the writer thread. *)
Definition write : M (Sys t) unit :=
  q <- gets (fun s => Q (self s)) ;;
  framelist <- deref q ;;
  path <- gets (fun s => outputPath (self s)) ;;
  cc <- gets (fun s => fourcc (self s)) ;;
  rate <- gets (fun s => fps (self s)) ;;
  f0 <- deque_index framelist 0 ;;
  f0' <- deque_index framelist 0 ;;
  color <- gets (fun s => is_color (self s)) ;;
  path <- arg path ;;
  cc <- arg cc ;;
  w <- on_world (VideoWriter_new path cc rate
                   (snd (shape f0), fst (shape f0')) color) ;;
  write_loop w framelist ;;
  on_world (VideoWriter_release w).

(** [finish] returns as soon as the thread is started; the thread runs
    later ([run_thread]). *)
Definition finish : M (Sys t) unit :=
  on_self (set_recording false) ;;
  tl <- gets (fun s => toolong (self s)) ;;
  if negb tl then on_self (fun o => set_threads (threads o ++ [Started]) o)
  else ret tt.

Definition exn_of {S A} (r : Res S A) : option Exn :=
  match r with
  | Raise e _ => Some e
  | _ => None
  end.

(** The thread [threads[i]], if started and not yet run, executes [write]
    on the object as it is now. *)
Definition run_thread (i : nat) (s : Sys t) : Sys t :=
  match threads (self s) !! i with
  | Some Started =>
      let r := write s in
      let s' := state_of r in
      mkSys (set_threads (<[i := Exited (exn_of r)]> (threads (self s'))) (self s'))
            (world s')
  | _ => s
  end.

(** What can happen to a recorder: the calls of its client and the runs
    of the writer threads it has started, in any order. *)
Inductive Event : Type :=
| Start (output_path fourcc : string) (fps : nat) (is_color : bool)
| Update (frame : Frame)
| Finish
| RunThread (i : nat).

Definition step (e : Event) : M (Sys t) unit :=
  match e with
  | Start p cc r col => start p cc r col
  | Update frame => update frame
  | Finish => finish
  | RunThread i => modify (run_thread i)
  end.

Fixpoint run (evs : list Event) : M (Sys t) unit :=
  match evs with
  | [] => ret tt
  | e :: evs' => step e ;; run evs'
  end.

(** The frames a schedule passes to [update], in order. *)
Fixpoint pushed (evs : list Event) : list Frame :=
  match evs with
  | [] => []
  | Update frame :: evs' => frame :: pushed evs'
  | _ :: evs' => pushed evs'
  end.

End ShortClipWriter.

(** ** [VideoStream] *)

Module VideoStream.

(** A [cv2.VideoCapture]: [results i] is what the [i]-th call of [read()]
    returns, the pair of the success flag and the image ([None] when there
    is none); [pos] counts the calls made so far. *)
Record Capture : Type := mkCapture {
  results : nat -> bool * option Frame;
  pos : nat
}.

Definition Capture_read (c : Capture) : (bool * option Frame) * Capture :=
  (results c (pos c), mkCapture (results c) (S (pos c))).

Record t : Type := mk {
  stream : Capture;
  grabbed : bool;
  frame : option Frame;
  stopped : bool;
  Q : list (option Frame)
}.

(** [__init__]: opens the capture and reads a first frame into
    [self.frame]. *)
Definition init (src : Capture) : t :=
  let '(r, src') := Capture_read src in
  mk src' (fst r) (snd r) false [].

(** Where the background thread stands in the body of [update]. *)
Inductive Pc : Type :=
| NotStarted
| AtStopped                  (* [if self.stopped: return] *)
| AtRead                     (* [self.stream.read()[1]] *)
| AtPut (v : option Frame)   (* [self.Q.put(...)] *)
| Exited.

(** The object, its background thread, and the values [read()] has
    returned to the caller so far. *)
Record Proc : Type := mkProc {
  obj : t;
  pc : Pc;
  returned : list (option Frame)
}.

(** [VideoStream(src).start()] *)
Definition start (o : t) : Proc := mkProc o AtStopped [].

(** One step of the background thread, the body of [update]. *)
Definition update_step (p : Proc) : Proc :=
  let o := obj p in
  match pc p with
  | AtStopped =>
      mkProc o (if stopped o then Exited else AtRead) (returned p)
  | AtRead =>
      let '(r, c) := Capture_read (stream o) in
      mkProc (mk c (grabbed o) (frame o) (stopped o) (Q o)) (AtPut (snd r))
             (returned p)
  | AtPut v =>
      mkProc (mk (stream o) (grabbed o) (frame o) (stopped o) (Q o ++ [v]))
             AtStopped (returned p)
  | NotStarted | Exited => p
  end.

(** [read()]: spins while the queue is empty ([None]: no return yet),
    otherwise takes the oldest item. *)
Definition read (o : t) : option (option Frame * t) :=
  match Q o with
  | [] => None
  | v :: q => Some (v, mk (stream o) (grabbed o) (frame o) (stopped o) q)
  end.

Definition stop (o : t) : t :=
  mk (stream o) (grabbed o) (frame o) true (Q o).

(** A schedule: steps of the background thread, completed [read()] calls
    and [stop()] calls of the caller, in any order. A [Read] is only
    possible when the queue is not empty. *)
Inductive Event : Type :=
| Tick
| Read
| Stop.

Fixpoint run (evs : list Event) (p : Proc) : option Proc :=
  match evs with
  | [] => Some p
  | Tick :: evs' => run evs' (update_step p)
  | Read :: evs' =>
      match read (obj p) with
      | Some (v, o) => run evs' (mkProc o (pc p) (returned p ++ [v]))
      | None => None
      end
  | Stop :: evs' => run evs' (mkProc (stop (obj p)) (pc p) (returned p))
  end.

(** The images of the capture's results number [i], [i+1], ...,
    [i+n-1]. *)
Definition produced (c : Capture) (i n : nat) : list (option Frame) :=
  map (fun j => snd (results c j)) (seq i n).

Definition in_flight (pc : Pc) : list (option Frame) :=
  match pc with
  | AtPut v => [v]
  | _ => []
  end.

End VideoStream.

(** ** Vocabulary of the statements *)

Module K := KeyClipWriter.
Module S := ShortClipWriter.
Module V := VideoStream.

(** The last [n] elements of a list, in order. *)
Definition lastn {A} (n : nat) (l : list A) : list A :=
  drop (length l - n) l.

(** Sample data for the concrete runs below: frames of 480 rows and 640
    columns told apart by their content, and a disk with no file on which
    every path can be created. *)
Definition fr (n : nat) : Frame := mkFrame (480, 640) n.

Definition disk0 : World := mkWorld (fun _ => true) ∅ [].

(** Two sample captures: one that always delivers, frame [i] at its [i]-th
    read, and one whose read number 1 fails. *)
Definition cam_ok : V.Capture :=
  V.mkCapture (fun i => (true, Some (fr i))) 0.

Definition cam_miss : V.Capture :=
  V.mkCapture (fun i => if decide (i = 1) then (false, None)
                        else (true, Some (fr i))) 0.

(** What every reachable [VideoStream] satisfies, for a capture [src]
    handed to [__init__]: the values returned so far, then those in the
    queue, then the one the thread is about to put, are the images of the
    capture's results from the second on, in order, failed or not. *)
Definition vs_inv (src : V.Capture) (p : V.Proc) : Prop :=
  V.results (V.stream (V.obj p)) = V.results src /\
  S (V.pos src) <= V.pos (V.stream (V.obj p)) /\
  V.frame (V.obj p) = snd (V.results src (V.pos src)) /\
  V.returned p ++ V.Q (V.obj p) ++ V.in_flight (V.pc p) =
    V.produced src (S (V.pos src))
      (V.pos (V.stream (V.obj p)) - S (V.pos src)).

(** A schedule on which [n] reads return: each is preceded by one full
    iteration of the background loop. *)
Fixpoint vs_lockstep (n : nat) : list V.Event :=
  match n with
  | 0 => []
  | S k => V.Tick :: V.Tick :: V.Tick :: V.Read :: vs_lockstep k
  end.

(** What every reachable [ShortClipWriter] satisfies: the history respects
    its [maxlen]; the pending sequence is there while recording and is no
    longer than the larger of [rec_max_frames + 1] and [bufSize]; and the
    overflow flag is only up when the pending sequence is longer than
    [rec_max_frames]. *)
Definition scw_inv (o : S.t) : Prop :=
  length (S.frames o) <= S.bufSize o /\
  (S.recording o = true -> is_Some (S.Q o)) /\
  (forall q, S.Q o = Some q ->
             length q <= max (S.rec_max_frames o + 1) (S.bufSize o)) /\
  (S.toolong o = true ->
   exists q, S.Q o = Some q /\ S.rec_max_frames o < length q).

(** A [KeyClipWriter] with a recording under way, seen through what
    matters to the output: [self.writer] is the sink number [w], opened for
    [path], not released, with [log] written so far; the queue holds [q]; the
    writer thread stands at [pc] (and is not waiting on an empty queue); the
    recording flag is [rec]. *)
Definition kcw_session (w : nat) (path : string) (log q : list Frame)
    (pc : K.Pc) (rec : bool) (s : Sys K.t) : Prop :=
  K.writer (self s) = Some w /\
  K.outputPath (self s) = Some path /\
  K.Q (self s) = Some q /\
  K.thread (self s) = Some pc /\
  K.recording (self s) = rec /\
  (pc = K.AtGet -> q <> []) /\
  exists k, sinks (world s) !! w = Some k /\
            vw_log k = log /\ vw_released k = false /\ vw_path k = path.

(** The world [b] differs from [a] at most in the sinks numbered [w] and
    up: the same paths can be opened, the same files are on disk, there are
    as many sinks, and those before [w] are as they were. *)
Definition sinks_kept (w : nat) (a b : World) : Prop :=
  openable b = openable a /\
  fs b = fs a /\
  length (sinks b) = length (sinks a) /\
  take w (sinks b) = take w (sinks a).

(** A [KeyClipWriter] whose writer thread is running with the flag up. *)
Definition kcw_alive (o : K.t) : Prop :=
  K.recording o = true /\
  is_Some (K.Q o) /\
  is_Some (K.writer o) /\
  exists pc, K.thread o = Some pc /\ pc <> K.Exited.

(** The number of steps of the background thread in a schedule. *)
Fixpoint vs_ticks (evs : list V.Event) : nat :=
  match evs with
  | [] => 0
  | V.Tick :: evs' => S (vs_ticks evs')
  | _ :: evs' => vs_ticks evs'
  end.

(** What the background loop of a stopped [VideoStream] can still do: the
    number of values it may yet put in the queue, and the number of steps
    before it has returned. *)
Definition vs_pending_puts (pc : V.Pc) : nat :=
  match pc with
  | V.AtRead | V.AtPut _ => 1
  | _ => 0
  end.

Definition vs_steps_left (pc : V.Pc) : nat :=
  match pc with
  | V.AtRead => 3
  | V.AtPut _ => 2
  | V.AtStopped => 1
  | V.NotStarted | V.Exited => 0
  end.

(** * Proofs *)

(** Closing the goals on [kcw_session] after a step of the writer thread:
    [Hk] is the sink as it was, [Hwr] the sink after one more write. *)
Ltac kcw_session_tac Hk Hwr :=
  unfold kcw_session; simpl; rewrite ?app_nil_r;
  repeat split; try discriminate;
  first [ solve [eauto]
        | eexists; split; [first [exact Hk | apply Hwr]|simpl; auto] ].

Ltac kcw_joined_tac d Hk Hwr :=
  eexists d, _; split; [reflexivity|]; split; [simpl; lia|];
  split; [first [intros _; reflexivity | intros [|[|]]; discriminate]|];
  split; [kcw_session_tac Hk Hwr|reflexivity].

(** ** The monad *)

Lemma bind_Ok {S A B} (c : M S A) (k : A -> M S B) s b s' :
  bind c k s = Ok b s' -> exists a s1, c s = Ok a s1 /\ k a s1 = Ok b s'.
Proof.
  unfold bind. destruct (c s) as [a s1|e s1|s1]; intros H; try discriminate.
  exists a, s1. split; [reflexivity | exact H].
Qed.

(** ** Bounded deques *)

Section Deque.
Context {A : Type}.
Implicit Types (d l : list A) (x : A) (C : nat).

Lemma lastn_length C l : length (lastn C l) = min C (length l).
Proof. unfold lastn. rewrite length_drop. lia. Qed.

Lemma lastn_all C l : length l <= C -> lastn C l = l.
Proof.
  intros H. unfold lastn. replace (length l - C) with 0 by lia. reflexivity.
Qed.

Lemma lastn_app_r C l l' : C <= length l' -> lastn C (l ++ l') = lastn C l'.
Proof.
  intros H. unfold lastn. rewrite length_app, drop_app_ge by lia.
  f_equal. lia.
Qed.

Lemma lastn_lastn_app C l l' : lastn C (lastn C l ++ l') = lastn C (l ++ l').
Proof.
  unfold lastn at 2. rewrite <- drop_app_le by lia.
  unfold lastn. rewrite drop_drop, length_drop, !length_app.
  f_equal. lia.
Qed.

Lemma deque_append_lastn C d x :
  length d <= C -> deque_append C d x = lastn C (d ++ [x]).
Proof.
  intros H. unfold deque_append, lastn. rewrite length_app. simpl.
  destruct (decide (C < length d + 1)) as [Hlt|Hge].
  - replace (length d + 1 - C) with 1 by lia. reflexivity.
  - replace (length d + 1 - C) with 0 by lia. reflexivity.
Qed.

Lemma tail_rev l : tail (rev l) = rev (removelast l).
Proof.
  destruct l as [|a l] using rev_ind; [reflexivity|].
  rewrite removelast_last, rev_unit. reflexivity.
Qed.

Lemma deque_appendleft_rev C d x :
  deque_appendleft C d x = rev (deque_append C (rev d) x).
Proof.
  unfold deque_appendleft, deque_append.
  replace (rev d ++ [x]) with (rev (x :: d)) by reflexivity.
  rewrite length_rev.
  destruct (decide (C < length (x :: d))).
  - rewrite tail_rev, rev_involutive. reflexivity.
  - rewrite rev_involutive. reflexivity.
Qed.

Lemma deque_append_length C d x :
  length d <= C -> length (deque_append C d x) <= C.
Proof.
  intros H. rewrite deque_append_lastn, lastn_length by exact H. lia.
Qed.

Lemma deque_appendleft_length C d x :
  length d <= C -> length (deque_appendleft C d x) <= C.
Proof.
  intros H. rewrite deque_appendleft_rev, length_rev.
  apply deque_append_length. rewrite length_rev. exact H.
Qed.
End Deque.

(** ** The rolling history of both recorders *)

Lemma kcw_update_eq f (s : Sys K.t) :
  K.update f s =
  let o := K.set_frames (deque_appendleft (K.bufSize (self s)) (K.frames (self s)) f)
             (self s) in
  if K.recording (self s) then
    match K.Q (self s) with
    | Some q => Ok tt (mkSys (K.set_Q (Some (q ++ [f])) o) (world s))
    | None => Raise AttributeError (mkSys o (world s))
    end
  else Ok tt (mkSys o (world s)).
Proof.
  destruct s as [[C fr q w th rec p col] wd]. cbn.
  destruct rec; [destruct q|]; reflexivity.
Qed.

Lemma kcw_write_step_frames (s : Sys K.t) :
  K.frames (self (K.write_step s)) = K.frames (self s) /\
  K.bufSize (self (K.write_step s)) = K.bufSize (self s).
Proof.
  destruct s as [[C fr q w th rec p col] wd]. cbn.
  destruct th as [[| | |f| |]|]; cbn; auto.
  - destruct rec; auto.
  - destruct q as [[|? ?]|]; auto.
  - destruct q as [[|? ?]|]; auto.
  - destruct w; auto.
Qed.

Lemma kcw_run_cons e evs (s s' : Sys K.t) :
  K.run (e :: evs) s = Ok tt s' ->
  exists s1,
    match e with
    | K.Update f => K.update f s = Ok tt s1
    | K.Tick => s1 = K.write_step s
    end /\ K.run evs s1 = Ok tt s'.
Proof.
  destruct e as [f|]; simpl; intros H; apply bind_Ok in H as ([] & s1 & H1 & H2).
  - eauto.
  - exists s1. split; [|exact H2]. unfold modify in H1. congruence.
Qed.

Lemma kcw_step_history e (s s1 : Sys K.t) :
  length (K.frames (self s)) <= K.bufSize (self s) ->
  match e with
  | K.Update f => K.update f s = Ok tt s1
  | K.Tick => s1 = K.write_step s
  end ->
  K.bufSize (self s1) = K.bufSize (self s) /\
  length (K.frames (self s1)) <= K.bufSize (self s) /\
  K.history (self s1) =
    lastn (K.bufSize (self s)) (K.history (self s) ++ K.pushed [e]).
Proof.
  intros Hlen He. destruct e as [f|].
  - rewrite kcw_update_eq in He. simpl in He.
    assert (K.frames (self s1) =
              deque_appendleft (K.bufSize (self s)) (K.frames (self s)) f /\
            K.bufSize (self s1) = K.bufSize (self s)) as [Hf Hb].
    { destruct (K.recording (self s)); [destruct (K.Q (self s))|];
        inversion He; subst; simpl; auto. }
    split; [exact Hb|]. rewrite Hf. split.
    + apply deque_appendleft_length, Hlen.
    + unfold K.history. rewrite Hf, deque_appendleft_rev, rev_involutive.
      apply deque_append_lastn. rewrite length_rev. exact Hlen.
  - subst s1. destruct (kcw_write_step_frames s) as [Hf Hb].
    unfold K.history. rewrite Hf, Hb. simpl. rewrite app_nil_r.
    repeat split; [exact Hlen|].
    symmetry. apply lastn_all. rewrite length_rev. exact Hlen.
Qed.

Lemma kcw_run_history evs : forall (s s' : Sys K.t),
  length (K.frames (self s)) <= K.bufSize (self s) ->
  K.run evs s = Ok tt s' ->
  K.bufSize (self s') = K.bufSize (self s) /\
  length (K.frames (self s')) <= K.bufSize (self s) /\
  K.history (self s') =
    lastn (K.bufSize (self s)) (K.history (self s) ++ K.pushed evs).
Proof.
  induction evs as [|e evs IH]; intros s s' Hlen Hrun.
  - inversion Hrun; subst. rewrite app_nil_r.
    repeat split; [exact Hlen|].
    symmetry. apply lastn_all. unfold K.history. rewrite length_rev. exact Hlen.
  - apply kcw_run_cons in Hrun as (s1 & He & Hrun).
    destruct (kcw_step_history e s s1 Hlen He) as (Hb & Hl & Hh).
    rewrite <- Hb in Hl.
    destruct (IH s1 s' Hl Hrun) as (Hb' & Hl' & Hh').
    rewrite Hb in Hb', Hl', Hh'.
    repeat split; [exact Hb'|exact Hl'|].
    rewrite Hh', Hh, lastn_lastn_app, <- app_assoc.
    destruct e; reflexivity.
Qed.

Lemma scw_update_eq f (s : Sys S.t) :
  S.update f s =
  let o := S.set_frames (deque_append (S.bufSize (self s)) (S.frames (self s)) f)
             (self s) in
  if S.recording (self s) then
    match S.Q (self s) with
    | Some q =>
        if decide (S.rec_max_frames (self s) < length q)
        then Ok tt (mkSys (S.set_toolong true o) (world s))
        else Ok tt (mkSys (S.set_Q (Some (q ++ [f])) o) (world s))
    | None => Raise TypeError (mkSys o (world s))
    end
  else Ok tt (mkSys o (world s)).
Proof.
  destruct s as [[C L fr q ths rec p tl cc r col] wd]. cbn.
  destruct rec; [|reflexivity].
  destruct q as [q|]; [|reflexivity]. cbn.
  destruct (decide _); reflexivity.
Qed.

Lemma scw_start_eq p cc r col (s : Sys S.t) :
  S.start p cc r col s =
  Ok tt (mkSys (S.mk (S.bufSize (self s)) (S.rec_max_frames (self s))
                  (S.frames (self s)) (Some (S.frames (self s)))
                  (S.threads (self s)) true (Some p) false (Some cc) r col)
               (world s)).
Proof. reflexivity. Qed.

Lemma scw_finish_eq (s : Sys S.t) :
  S.finish s =
  Ok tt (mkSys (let o := S.set_recording false (self s) in
                if S.toolong (self s) then o
                else S.set_threads (S.threads (self s) ++ [S.Started]) o)
               (world s)).
Proof.
  destruct s as [[C L fr q ths rec p tl cc r col] wd]. cbn.
  destruct tl; reflexivity.
Qed.

Lemma scw_write_loop_self w fl : forall (s : Sys S.t),
  self (state_of (S.write_loop w fl s)) = self s.
Proof.
  induction fl as [|f fl IH]; intros s; [reflexivity|].
  cbn. unfold bind. cbn. rewrite IH. reflexivity.
Qed.

Lemma scw_write_self (s : Sys S.t) : self (state_of (S.write s)) = self s.
Proof.
  destruct s as [[C L fr q ths rec p tl cc r col] wd].
  unfold S.write, bind. cbn.
  destruct q as [q|]; [|reflexivity]. cbn.
  destruct q as [|f0 q]; [reflexivity|]. cbn.
  destruct p as [p|]; [|reflexivity]. cbn.
  destruct cc as [cc|]; [|reflexivity]. cbn.
  match goal with
  | |- context [S.write_loop ?w ?fl ?s] =>
      pose proof (scw_write_loop_self w fl s) as H;
      destruct (S.write_loop w fl s) as [[] s1|e s1|s1]
  end; cbn in *; exact H.
Qed.

(** A writer thread touches the world and the list of threads only. *)
Lemma scw_run_thread_self i (s : Sys S.t) :
  exists ths, self (S.run_thread i s) = S.set_threads ths (self s).
Proof.
  unfold S.run_thread.
  destruct (S.threads (self s) !! i) as [[|]|];
    try (exists (S.threads (self s)); destruct s as [[] ?]; reflexivity).
  assert (self (state_of (S.write s)) = self s) as Hs.
  { apply scw_write_self. }
  eexists. rewrite Hs. reflexivity.
Qed.

Lemma scw_step_frames e (s s1 : Sys S.t) :
  S.step e s = Ok tt s1 ->
  S.bufSize (self s1) = S.bufSize (self s) /\
  S.rec_max_frames (self s1) = S.rec_max_frames (self s) /\
  S.frames (self s1) =
    match e with
    | S.Update f => deque_append (S.bufSize (self s)) (S.frames (self s)) f
    | _ => S.frames (self s)
    end.
Proof.
  destruct e as [p cc r col|f| |i]; simpl; intros H.
  - rewrite scw_start_eq in H. inversion H; subst. simpl. auto.
  - rewrite scw_update_eq in H. simpl in H.
    destruct (S.recording (self s)); [destruct (S.Q (self s)) as [q|]|];
      try destruct (decide _); inversion H; subst; simpl; auto.
  - rewrite scw_finish_eq in H. inversion H; subst. simpl.
    destruct (S.toolong (self s)); simpl; auto.
  - unfold modify in H. inversion H; subst.
    destruct (scw_run_thread_self i s) as [ths ->]. simpl. auto.
Qed.

Lemma scw_run_history evs : forall (s s' : Sys S.t),
  length (S.frames (self s)) <= S.bufSize (self s) ->
  S.run evs s = Ok tt s' ->
  S.bufSize (self s') = S.bufSize (self s) /\
  length (S.frames (self s')) <= S.bufSize (self s) /\
  S.frames (self s') =
    lastn (S.bufSize (self s)) (S.frames (self s) ++ S.pushed evs).
Proof.
  induction evs as [|e evs IH]; intros s s' Hlen Hrun.
  - inversion Hrun; subst. rewrite app_nil_r.
    repeat split; [exact Hlen|]. symmetry. apply lastn_all, Hlen.
  - simpl in Hrun. apply bind_Ok in Hrun as ([] & s1 & He & Hrun).
    destruct (scw_step_frames e s s1 He) as (Hb & _ & Hf).
    assert (length (S.frames (self s1)) <= S.bufSize (self s1) /\
            S.frames (self s1) =
              lastn (S.bufSize (self s)) (S.frames (self s) ++ S.pushed [e]))
      as [Hl Hh].
    { rewrite Hf, Hb. destruct e as [p cc r col|f| |i]; simpl;
        rewrite ?app_nil_r;
        try (split; [exact Hlen|symmetry; apply lastn_all, Hlen]).
      split; [apply deque_append_length, Hlen|apply deque_append_lastn, Hlen]. }
    destruct (IH s1 s' Hl Hrun) as (Hb' & Hl' & Hh').
    rewrite Hb in Hb', Hl', Hh'.
    repeat split; [exact Hb'|exact Hl'|].
    rewrite Hh', Hh, lastn_lastn_app, <- app_assoc.
    destruct e; reflexivity.
Qed.

Lemma kcw_pushed_app evs1 evs2 :
  K.pushed (evs1 ++ evs2) = K.pushed evs1 ++ K.pushed evs2.
Proof.
  induction evs1 as [|[f|] evs1 IH]; simpl; [reflexivity| |exact IH].
  rewrite IH. reflexivity.
Qed.

Lemma scw_pushed_app evs1 evs2 :
  S.pushed (evs1 ++ evs2) = S.pushed evs1 ++ S.pushed evs2.
Proof.
  induction evs1 as [|[p cc r col|f| |i] evs1 IH]; simpl;
    rewrite ?IH; reflexivity.
Qed.

(** C3. The rolling history of either recorder is a deque bounded by
    [bufSize]: along any schedule its length never exceeds [bufSize], and once
    at least [bufSize] frames have been passed to [update] it holds exactly
    the last [bufSize] of them, in arrival order from its old end to its new
    end ([KeyClipWriter] pushes on the left, so its old end is the right end
    of the deque; [ShortClipWriter] pushes on the right). *)
Theorem rolling_history_keeps_last_frames :
  (forall (s s1 s2 : Sys K.t) (evs1 evs2 : list K.Event),
      length (K.frames (self s)) <= K.bufSize (self s) ->
      K.run evs1 s = Ok tt s1 ->
      K.run evs2 s1 = Ok tt s2 ->
      length (K.frames (self s1)) <= K.bufSize (self s) /\
      (K.bufSize (self s) <= length (K.pushed (evs1 ++ evs2)) ->
       K.history (self s2) =
         lastn (K.bufSize (self s)) (K.pushed (evs1 ++ evs2)))) /\
  (forall (s s1 s2 : Sys S.t) (evs1 evs2 : list S.Event),
      length (S.frames (self s)) <= S.bufSize (self s) ->
      S.run evs1 s = Ok tt s1 ->
      S.run evs2 s1 = Ok tt s2 ->
      length (S.frames (self s1)) <= S.bufSize (self s) /\
      (S.bufSize (self s) <= length (S.pushed (evs1 ++ evs2)) ->
       S.frames (self s2) =
         lastn (S.bufSize (self s)) (S.pushed (evs1 ++ evs2)))).
Proof.
  split; intros s s1 s2 evs1 evs2 Hlen H1 H2.
  - destruct (kcw_run_history evs1 s s1 Hlen H1) as (Hb & Hl & Hh).
    split; [exact Hl|]. intros Hk.
    rewrite <- Hb in Hl.
    destruct (kcw_run_history evs2 s1 s2 Hl H2) as (_ & _ & Hh2).
    rewrite Hh2, Hb, Hh, lastn_lastn_app, <- app_assoc, <- kcw_pushed_app.
    apply lastn_app_r, Hk.
  - destruct (scw_run_history evs1 s s1 Hlen H1) as (Hb & Hl & Hh).
    split; [exact Hl|]. intros Hk.
    rewrite <- Hb in Hl.
    destruct (scw_run_history evs2 s1 s2 Hl H2) as (_ & _ & Hh2).
    rewrite Hh2, Hb, Hh, lastn_lastn_app, <- app_assoc, <- scw_pushed_app.
    apply lastn_app_r, Hk.
Qed.

Lemma rolling_history_keeps_last_frames_witness :
  K.history
    (self (state_of (K.run [K.Update (fr 1); K.Update (fr 2); K.Tick; K.Update (fr 3)]
                       (mkSys (K.init 2) disk0)))) = [fr 2; fr 3] /\
  S.frames
    (self (state_of (S.run [S.Update (fr 1); S.Update (fr 2); S.Update (fr 3)]
                       (mkSys (S.init 2 4) disk0)))) = [fr 2; fr 3].
Proof.
  destruct rolling_history_keeps_last_frames as [HK HS]. split.
  - refine (proj2 (HK (mkSys (K.init 2) disk0)
                     (state_of (K.run [K.Update (fr 1)] (mkSys (K.init 2) disk0)))
                     _ [K.Update (fr 1)] [K.Update (fr 2); K.Tick; K.Update (fr 3)]
                     _ _ _) _);
      [simpl; lia | reflexivity | reflexivity | simpl; lia].
  - refine (proj2 (HS (mkSys (S.init 2 4) disk0)
                     (state_of (S.run [S.Update (fr 1)] (mkSys (S.init 2 4) disk0)))
                     _ [S.Update (fr 1)] [S.Update (fr 2); S.Update (fr 3)]
                     _ _ _) _);
      [simpl; lia | reflexivity | reflexivity | simpl; lia].
Defined.

(** ** [ShortClipWriter]: the pending sequence *)

Lemma scw_inv_init C L : scw_inv (S.init C L).
Proof.
  unfold scw_inv. simpl. repeat split; try discriminate. lia.
Qed.

Lemma scw_inv_step e (s : Sys S.t) :
  scw_inv (self s) ->
  exists s', S.step e s = Ok tt s' /\ scw_inv (self s') /\
             S.bufSize (self s') = S.bufSize (self s) /\
             S.rec_max_frames (self s') = S.rec_max_frames (self s).
Proof.
  intros (Hlen & Hrec & Hq & Htl).
  destruct e as [p cc r col|f| |i]; simpl.
  - rewrite scw_start_eq. eexists. split; [reflexivity|].
    unfold scw_inv. simpl. repeat split; eauto; try discriminate.
    intros q [= <-]. lia.
  - rewrite scw_update_eq. simpl.
    pose proof (deque_append_length (S.bufSize (self s)) (S.frames (self s)) f Hlen)
      as Hlen'.
    destruct (S.recording (self s)) eqn:Erec.
    + destruct (Hrec eq_refl) as [q Eq]. rewrite Eq.
      destruct (decide (S.rec_max_frames (self s) < length q)) as [Hlt|Hge].
      * eexists. split; [reflexivity|].
        unfold scw_inv. simpl. repeat split; eauto.
      * eexists. split; [reflexivity|].
        unfold scw_inv. simpl. repeat split; eauto.
        -- intros q' [= <-]. rewrite length_app. simpl. lia.
        -- intros Ht. destruct (Htl Ht) as (q' & Eq' & Hlt).
           rewrite Eq in Eq'. injection Eq' as <-. lia.
    + eexists. split; [reflexivity|].
      unfold scw_inv. simpl. rewrite Erec. repeat split; eauto; try discriminate.
  - rewrite scw_finish_eq. eexists. split; [reflexivity|].
    unfold scw_inv. simpl.
    destruct (S.toolong (self s)) eqn:Et; simpl; rewrite ?Et;
      repeat split; eauto; try discriminate.
  - unfold modify. eexists. split; [reflexivity|].
    destruct (scw_run_thread_self i s) as [ths ->].
    unfold scw_inv. simpl. repeat split; eauto.
Qed.

Lemma scw_inv_run evs : forall (s : Sys S.t),
  scw_inv (self s) ->
  exists s', S.run evs s = Ok tt s' /\ scw_inv (self s') /\
             S.bufSize (self s') = S.bufSize (self s) /\
             S.rec_max_frames (self s') = S.rec_max_frames (self s).
Proof.
  induction evs as [|e evs IH]; intros s Hinv.
  - exists s. split; [reflexivity|]. split; [exact Hinv|]. split; reflexivity.
  - destruct (scw_inv_step e s Hinv) as (s1 & He & Hinv1 & Hb1 & HL1).
    destruct (IH s1 Hinv1) as (s' & Hr & Hinv' & Hb' & HL').
    exists s'. simpl. unfold bind. rewrite He.
    split; [exact Hr|]. split; [exact Hinv'|]. split; congruence.
Qed.

(** Once the flag is up, [update] leaves the pending sequence alone. *)
Lemma scw_update_overflowed f (s : Sys S.t) :
  scw_inv (self s) ->
  S.toolong (self s) = true ->
  exists s', S.update f s = Ok tt s' /\
             S.Q (self s') = S.Q (self s) /\ S.toolong (self s') = true.
Proof.
  intros (_ & _ & _ & Htl) Ht.
  destruct (Htl Ht) as (q & Eq & Hlt).
  rewrite scw_update_eq. simpl. rewrite Eq.
  destruct (S.recording (self s)).
  - destruct (decide _) as [_|Hn]; [|contradiction].
    eexists. split; [reflexivity|]. simpl. auto.
  - eexists. split; [reflexivity|]. simpl. auto.
Qed.

(** C9, as the code has it. After any sequence of [start], [update] and
    [finish] calls (and runs of writer threads) on a fresh recorder, every
    call having returned normally, the pending sequence [Q] holds at most
    [max (rec_max_frames + 1) bufSize] frames: [start] copies the whole
    rolling history, whatever its length, and [update] appends only while
    the length is at most [rec_max_frames]. So the bound is
    [rec_max_frames + 1] when [bufSize <= rec_max_frames + 1]. While
    recording, [update] appends when the length is at most [rec_max_frames]
    and otherwise raises the flag and leaves [Q] alone; and once the flag is
    up every further [update] leaves [Q] as it is. *)
Theorem pending_sequence_bound (C L : nat) (w : World) (evs : list S.Event) :
  exists s,
    S.run evs (mkSys (S.init C L) w) = Ok tt s /\
    (forall q, S.Q (self s) = Some q -> length q <= max (L + 1) C) /\
    (C <= L + 1 -> forall q, S.Q (self s) = Some q -> length q <= L + 1) /\
    (forall q f, S.recording (self s) = true -> S.Q (self s) = Some q ->
       exists s', S.update f s = Ok tt s' /\
         if decide (length q <= L)
         then S.Q (self s') = Some (q ++ [f]) /\
              S.toolong (self s') = S.toolong (self s)
         else S.Q (self s') = Some q /\ S.toolong (self s') = true) /\
    (S.toolong (self s) = true ->
     forall f, exists s', S.update f s = Ok tt s' /\
       S.Q (self s') = S.Q (self s) /\ S.toolong (self s') = true).
Proof.
  destruct (scw_inv_run evs (mkSys (S.init C L) w) (scw_inv_init C L))
    as (s & Hrun & Hinv & Hb & HL).
  simpl in Hb, HL.
  exists s. split; [exact Hrun|].
  pose proof Hinv as (_ & _ & Hq & _). rewrite Hb, HL in Hq.
  split; [exact Hq|]. split; [|split].
  - intros HC q Eq. specialize (Hq q Eq). lia.
  - intros q f Erec Eq. rewrite scw_update_eq. simpl. rewrite Erec, Eq, HL.
    destruct (decide (L < length q)) as [Hlt|Hge].
    + eexists. split; [reflexivity|].
      destruct (decide (length q <= L)); [lia|]. simpl. auto.
    + eexists. split; [reflexivity|].
      destruct (decide (length q <= L)); [|lia]. simpl. auto.
  - intros Ht f. apply scw_update_overflowed; assumption.
Qed.

Lemma pending_sequence_bound_witness :
  exists s,
    S.run [S.Update (fr 1); S.Start "clip.avi" "XVID" 30 true;
           S.Update (fr 2); S.Update (fr 3); S.Update (fr 4)]
      (mkSys (S.init 60 1) disk0) = Ok tt s /\
    S.Q (self s) = Some [fr 1; fr 2] /\ S.toolong (self s) = true.
Proof.
  destruct (pending_sequence_bound 60 1 disk0
              [S.Update (fr 1); S.Start "clip.avi" "XVID" 30 true;
               S.Update (fr 2); S.Update (fr 3); S.Update (fr 4)])
    as (s & Hrun & _).
  exists s. split; [exact Hrun|].
  vm_compute in Hrun. injection Hrun as <-. split; reflexivity.
Defined.

(** C9 as stated fails: with [bufSize = 3] and [rec_max_frames = 0], three
    frames of history are copied into [Q] by [start], more than
    [rec_max_frames + 1 = 1]. *)
Lemma pending_sequence_exceeds_ceiling_plus_one :
  ~ (forall (C L : nat) (evs : list S.Event) (s : Sys S.t) (q : list Frame),
        S.run evs (mkSys (S.init C L) disk0) = Ok tt s ->
        S.Q (self s) = Some q ->
        length q <= L + 1).
Proof.
  intros H.
  specialize (H 3 0 [S.Update (fr 1); S.Update (fr 2); S.Update (fr 3);
                     S.Start "clip.avi" "XVID" 30 true]
                _ _ eq_refl eq_refl).
  simpl in H. lia.
Qed.

(** ** [ShortClipWriter]: what [finish] writes *)

(** C10. If [start] is called while the rolling history is empty and
    [finish] follows with no [update] in between, both calls return, a
    writer thread is started, and that thread ends with an [IndexError]
    (indexing the empty copy of the pending sequence) before any
    [VideoWriter] is constructed: the set of sinks and the files on disk are
    as before. *)
Theorem short_clip_empty_history_index_error
    (s : Sys S.t) (p cc : string) (r : nat) (col : bool) :
  S.frames (self s) = [] ->
  exists s1 s2,
    S.start p cc r col s = Ok tt s1 /\
    S.finish s1 = Ok tt s2 /\
    S.threads (self s2) = S.threads (self s) ++ [S.Started] /\
    S.write s2 = Raise IndexError s2 /\
    let s3 := S.run_thread (length (S.threads (self s))) s2 in
    S.threads (self s3) = S.threads (self s) ++ [S.Exited (Some IndexError)] /\
    world s3 = world s.
Proof.
  destruct s as [[C L frs q ths rec op tl fc fps0 ic] wd]. simpl.
  intros ->. do 2 eexists. split; [reflexivity|].
  split; [reflexivity|]. simpl.
  split; [reflexivity|]. split; [reflexivity|].
  unfold S.run_thread. simpl.
  rewrite list_lookup_middle by reflexivity. simpl.
  split; [|reflexivity].
  rewrite insert_app_r_alt, Nat.sub_diag by lia. reflexivity.
Qed.

Lemma short_clip_empty_history_index_error_witness :
  S.frames (S.init 60 200) = [] /\
  exists s1 s2,
    S.start "clip.avi" "XVID" 30 true (mkSys (S.init 60 200) disk0) = Ok tt s1 /\
    S.finish s1 = Ok tt s2 /\
    S.threads (self s2) = [S.Started] /\
    S.write s2 = Raise IndexError s2 /\
    S.threads (self (S.run_thread 0 s2)) = [S.Exited (Some IndexError)] /\
    world (S.run_thread 0 s2) = disk0.
Proof.
  split; [reflexivity|].
  exact (short_clip_empty_history_index_error
           (mkSys (S.init 60 200) disk0) "clip.avi" "XVID" 30 true eq_refl).
Defined.

(** The outcome of one recording, in general. *)

Lemma scw_run_app evs1 : forall evs2 (s : Sys S.t),
  S.run (evs1 ++ evs2) s = bind (S.run evs1) (fun _ => S.run evs2) s.
Proof.
  induction evs1 as [|e evs1 IH]; intros evs2 s; [reflexivity|].
  simpl. unfold bind in *. destruct (S.step e s) as [[] s1|e1 s1|s1];
    [apply IH|reflexivity|reflexivity].
Qed.

Lemma scw_write_loop_eq fl : forall sk k (s : Sys S.t),
  sinks (world s) = sk ++ [k] ->
  vw_released k = false ->
  S.write_loop (length sk) fl s =
  Ok tt (mkSys (self s)
           (mkWorld (openable (world s)) (fs (world s))
              (sk ++ [mkVideoWriter (vw_path k) (vw_fourcc k) (vw_fps k)
                        (vw_size k) (vw_isColor k) (vw_opened k)
                        (vw_log k ++ fl) false]))).
Proof.
  induction fl as [|f fl IH]; intros sk k s Hsk Hrel.
  - simpl. unfold ret. rewrite app_nil_r.
    destruct s as [o [opn fs0 sk0]], k. simpl in *. subst. reflexivity.
  - simpl. unfold bind, on_world. simpl.
    rewrite (IH sk (vw_write f k)).
    + simpl. unfold vw_write. rewrite Hrel. simpl.
      rewrite <- app_assoc. reflexivity.
    + simpl. rewrite Hsk.
      replace (length sk) with (length sk + 0) at 1 by lia.
      rewrite alter_app_r. reflexivity.
    + unfold vw_write. rewrite Hrel. reflexivity.
Qed.

Lemma scw_write_eq f0 fl p cc (s : Sys S.t) :
  S.Q (self s) = Some (f0 :: fl) ->
  S.outputPath (self s) = Some p ->
  S.fourcc (self s) = Some cc ->
  S.write s =
  Ok tt (mkSys (self s)
           (mkWorld (openable (world s))
              (if openable (world s) p then {[ p ]} ∪ fs (world s)
               else fs (world s))
              (sinks (world s) ++
               [mkVideoWriter p cc (S.fps (self s))
                  (snd (shape f0), fst (shape f0)) (S.is_color (self s))
                  (openable (world s) p) (f0 :: fl) true]))).
Proof.
  destruct s as [[C L frs q ths rec op tl fc fps0 ic] [opn fs0 sk]]. simpl.
  intros -> -> ->.
  unfold S.write, bind. cbn -[S.write_loop].
  erewrite scw_write_loop_eq; [|reflexivity|reflexivity].
  cbn. replace (length sk) with (length sk + 0) by lia.
  rewrite alter_app_r. reflexivity.
Qed.

Lemma scw_updates_recording L U : forall (s : Sys S.t) q,
  S.rec_max_frames (self s) = L ->
  S.recording (self s) = true ->
  S.Q (self s) = Some q ->
  exists frs,
    S.run (map S.Update U) s =
    Ok tt (mkSys
             (S.set_frames frs
                (S.set_toolong
                   (S.toolong (self s) ||
                    bool_decide (U <> [] /\ L + 1 < length q + length U))
                   (S.set_Q (Some (q ++ take (L + 1 - length q) U)) (self s))))
             (world s)).
Proof.
  induction U as [|f U IH]; intros s q HL Hrec HQ.
  - exists (S.frames (self s)). simpl. unfold ret.
    rewrite take_nil, app_nil_r, orb_false_r.
    destruct s as [[] ?]. simpl in *. subst. reflexivity.
  - simpl. unfold bind. rewrite scw_update_eq. simpl. rewrite Hrec, HQ, HL.
    destruct (decide (L < length q)) as [Hlt|Hge].
    + cbv beta iota.
      match goal with
      | |- context [S.run (map S.Update U) ?s1] =>
          destruct (IH s1 q) as (frs & H); [exact HL|exact Hrec|exact HQ|]
      end.
      exists frs. rewrite H. simpl.
      replace (L + 1 - length q) with 0 by lia. rewrite !take_0.
      rewrite (bool_decide_eq_true_2 (f :: U <> [] /\ _))
        by (split; [discriminate|simpl; lia]).
      rewrite orb_true_r.
      destruct s as [[] ?]. reflexivity.
    + cbv beta iota.
      match goal with
      | |- context [S.run (map S.Update U) ?s1] =>
          destruct (IH s1 (q ++ [f])) as (frs & H);
            [exact HL|exact Hrec|reflexivity|]
      end.
      exists frs. rewrite H. simpl. rewrite length_app. simpl.
      replace (L + 1 - length q) with (S (L + 1 - (length q + 1))) by lia.
      simpl. rewrite <- app_assoc. simpl.
      replace (bool_decide (U <> [] /\ L + 1 < length q + 1 + length U))
        with (bool_decide (f :: U <> [] /\ L + 1 < length q + S (length U))).
      { destruct s as [[] ?]. reflexivity. }
      apply bool_decide_ext. split.
      * intros [_ H1]. split; [|lia]. intros ->. simpl in H1. lia.
      * intros [_ H1]. split; [discriminate|lia].
Qed.



Lemma scw_run_thread_started i (s : Sys S.t) :
  S.threads (self s) !! i = Some S.Started ->
  S.run_thread i s =
  mkSys (S.set_threads
           (<[i := S.Exited (S.exn_of (S.write s))]>
              (S.threads (self (state_of (S.write s)))))
           (self (state_of (S.write s))))
        (world (state_of (S.write s))).
Proof.
  unfold S.run_thread. intros ->. reflexivity.
Qed.


(** C1 at the spec's own scenario. With [rec_max_frames = 4], a history of
    [f1, f2] at [start] and updates [f3, f4, f5], the overflow flag stays
    down (each [update] saw at most 4 pending frames), [finish] starts the
    writer thread, and the thread writes all five frames to the output
    file. *)
Theorem short_clip_five_frames_with_ceiling_four :
  let s := state_of
             (S.run [S.Update (fr 1); S.Update (fr 2);
                     S.Start "clip.avi" "XVID" 30 true;
                     S.Update (fr 3); S.Update (fr 4); S.Update (fr 5);
                     S.Finish; S.RunThread 0]
                (mkSys (S.init 60 4) disk0)) in
  S.toolong (self s) = false /\
  S.threads (self s) = [S.Exited None] /\
  sinks (world s) =
    [mkVideoWriter "clip.avi" "XVID" 30 (640, 480) true true
       [fr 1; fr 2; fr 3; fr 4; fr 5] true] /\
  fs (world s) = {[ "clip.avi" ]}.
Proof.
  vm_compute. repeat split; reflexivity.
Qed.

(** ** [KeyClipWriter]: one recording *)

Lemma kcw_start_loop_eq n : forall (s : Sys K.t) acc,
  n <= length (K.frames (self s)) ->
  K.Q (self s) = Some acc ->
  K.start_loop n s =
  Ok tt (mkSys (K.set_Q (Some (acc ++ rev (take n (K.frames (self s))))) (self s))
               (world s)).
Proof.
  induction n as [|n IH]; intros s acc Hn HQ.
  - simpl. rewrite app_nil_r. unfold ret.
    destruct s as [[C frs q w th rec op col] wd]. simpl in *. subst q. reflexivity.
  - destruct (lookup_lt_is_Some_2 (K.frames (self s)) n) as [f Hf]; [lia|].
    simpl. unfold bind, gets, deque_index. rewrite Hf.
    unfold ret, K.Q_put, bind, gets, deref. rewrite HQ. unfold ret, on_self, modify.
    rewrite (IH _ (acc ++ [f])); [|simpl; lia|reflexivity].
    simpl. rewrite (take_S_r _ _ _ Hf), rev_unit, <- app_assoc.
    destruct s as [[C frs q w th rec op col] wd]. reflexivity.
Qed.

(** [start] on a non-empty history: the call returns with the recording
    under way, the whole history queued oldest first. *)
Lemma kcw_start_session p cc r col (s : Sys K.t) :
  K.frames (self s) <> [] ->
  exists s1,
    K.start p cc r col s = Ok tt s1 /\
    kcw_session (length (sinks (world s))) p [] (K.history (self s)) K.AtFlag true s1 /\
    K.frames (self s1) = K.frames (self s) /\
    fs (world s1) =
      (if openable (world s) p then {[ p ]} ∪ fs (world s) else fs (world s)) /\
    openable (world s1) = openable (world s).
Proof.
  intros Hne.
  destruct s as [[C frs q w th rec op col0] [opn fs0 sk]]. simpl in *.
  destruct frs as [|f0 frs]; [contradiction|].
  unfold K.start. remember K.start_loop as loop eqn:Eloop.
  unfold bind, on_self, modify, gets, deque_index. simpl.
  unfold ret, on_world, VideoWriter_new. simpl. subst loop.
  match goal with
  | |- context [K.start_loop ?n ?s] =>
      rewrite (kcw_start_loop_eq n s []); [|simpl; lia|reflexivity]
  end.
  eexists. split; [reflexivity|].
  cbn [self world K.frames K.set_Q K.set_thread K.Q K.writer K.thread
       K.recording K.outputPath K.bufSize K.isColor fs sinks openable app].
  change (S (length frs)) with (length (f0 :: frs)).
  rewrite firstn_all. unfold kcw_session, K.history. simpl.
  repeat split; try discriminate.
  exists (mkVideoWriter p cc r (snd (shape f0), fst (shape f0)) col (opn p) [] false).
  rewrite list_lookup_middle by reflexivity. auto.
Qed.

(** A step of the writer thread moves frames from the queue to the sink and
    loses none. *)
Lemma kcw_write_step_session w p log q pc rec (s : Sys K.t) :
  kcw_session w p log q pc rec s ->
  exists log' q' pc',
    kcw_session w p log' q' pc' rec (K.write_step s) /\
    log' ++ K.in_flight (Some pc') ++ q' = log ++ K.in_flight (Some pc) ++ q /\
    fs (world (K.write_step s)) = fs (world s).
Proof.
  intros (Hw & Hp & HQ & Ht & Hr & Hget & k & Hk & Hlog & Hrel & Hpath).
  destruct s as [[C frs Q0 w0 th rec0 op col] [opn fs0 sk]]. simpl in *. subst.
  unfold K.write_step. simpl.
  destruct pc as [| | |f| |]; simpl.
  - destruct rec; simpl.
    + exists (vw_log k), q, K.AtEmpty. unfold kcw_session. simpl.
      repeat split; eauto; discriminate.
    + exists (vw_log k), q, K.Exited. unfold kcw_session. simpl.
      repeat split; eauto; discriminate.
  - destruct q as [|f q]; simpl.
    + exists (vw_log k), [], K.AtSleep. unfold kcw_session. simpl.
      repeat split; eauto; discriminate.
    + exists (vw_log k), (f :: q), K.AtGet. unfold kcw_session. simpl.
      repeat split; eauto; discriminate.
  - destruct q as [|f q]; [exfalso; apply Hget; reflexivity|]. simpl.
    exists (vw_log k), q, (K.AtWrite f). unfold kcw_session. simpl.
    repeat split; eauto; discriminate.
  - exists (vw_log k ++ [f]), q, K.AtFlag. unfold kcw_session. simpl.
    rewrite <- app_assoc. repeat split; try discriminate.
    exists (vw_write f k). split.
    { rewrite list_lookup_alter_eq, Hk. reflexivity. }
    unfold vw_write. rewrite Hrel. simpl. auto.
  - exists (vw_log k), q, K.AtFlag. unfold kcw_session. simpl.
    repeat split; eauto; discriminate.
  - exists (vw_log k), q, K.Exited. unfold kcw_session. simpl.
    repeat split; eauto; discriminate.
Qed.

Lemma kcw_update_session f w p log q pc (s : Sys K.t) :
  kcw_session w p log q pc true s ->
  exists s',
    K.update f s = Ok tt s' /\
    kcw_session w p log (q ++ [f]) pc true s' /\
    fs (world s') = fs (world s).
Proof.
  intros (Hw & Hp & HQ & Ht & Hr & Hget & Hk).
  rewrite kcw_update_eq. simpl. rewrite Hr, HQ.
  eexists. split; [reflexivity|]. unfold kcw_session. simpl.
  repeat split; auto.
  intros _ E. destruct q; discriminate.
Qed.

Lemma kcw_run_session evs : forall w p log q pc (s : Sys K.t),
  kcw_session w p log q pc true s ->
  exists s' log' q' pc',
    K.run evs s = Ok tt s' /\
    kcw_session w p log' q' pc' true s' /\
    log' ++ K.in_flight (Some pc') ++ q' =
      log ++ K.in_flight (Some pc) ++ q ++ K.pushed evs /\
    fs (world s') = fs (world s).
Proof.
  induction evs as [|[f|] evs IH]; intros w p log q pc s Hs.
  - exists s, log, q, pc. simpl. rewrite app_nil_r. auto.
  - destruct (kcw_update_session f w p log q pc s Hs) as (s1 & Hu & Hs1 & Hfs1).
    destruct (IH _ _ _ _ _ _ Hs1) as (s' & log' & q' & pc' & Hr & Hs' & Heq & Hfs).
    exists s', log', q', pc'.
    split; [simpl; unfold bind; rewrite Hu; exact Hr|].
    split; [exact Hs'|]. split; [|congruence].
    rewrite Heq, <- app_assoc. reflexivity.
  - destruct (kcw_write_step_session w p log q pc true s Hs)
      as (log1 & q1 & pc1 & Hs1 & Heq1 & Hfs1).
    destruct (IH _ _ _ _ _ _ Hs1) as (s' & log' & q' & pc' & Hr & Hs' & Heq & Hfs).
    exists s', log', q', pc'.
    split; [simpl; unfold bind, modify; exact Hr|].
    split; [exact Hs'|]. split; [|congruence].
    change (K.pushed (K.Tick :: evs)) with (K.pushed evs).
    rewrite Heq, !app_assoc. f_equal. rewrite <- !app_assoc. exact Heq1.
Qed.

Lemma kcw_join_mono fuel : forall (s s' : Sys K.t) n,
  K.join fuel s = Ok tt s' -> K.join (fuel + n) s = Ok tt s'.
Proof.
  induction fuel as [|fuel IH]; intros s s' n H.
  - simpl in H. destruct (K.thread (self s)) as [pc|] eqn:Et; [|discriminate].
    destruct pc; try discriminate.
    destruct n; simpl; rewrite Et; exact H.
  - simpl in *. destruct (K.thread (self s)) as [pc|]; [|discriminate].
    destruct pc; try exact H; apply IH, H.
Qed.

Lemma kcw_join_exited fuel : forall (s s' : Sys K.t),
  K.join fuel s = Ok tt s' -> K.thread (self s') = Some K.Exited.
Proof.
  induction fuel as [|fuel IH]; intros s s' H; simpl in H;
    destruct (K.thread (self s)) as [pc|] eqn:Et; try discriminate;
    destruct pc; try discriminate;
    try (injection H as <-; exact Et); eapply IH; exact H.
Qed.

(** With the flag down, the writer thread exits within four steps, having
    written the frame it held and at most one more frame from the queue. *)
Lemma kcw_join_session w p log q pc (s : Sys K.t) :
  kcw_session w p log q pc false s ->
  (forall fuel, 4 <= fuel -> exists sj, K.join fuel s = Ok tt sj) /\
  (forall fuel sj, K.join fuel s = Ok tt sj ->
     exists d q',
       q = d ++ q' /\ length d <= 1 /\
       (pc = K.AtFlag \/ pc = K.AtSleep \/ pc = K.Exited -> d = []) /\
       kcw_session w p (log ++ K.in_flight (Some pc) ++ d) q' K.Exited false sj /\
       fs (world sj) = fs (world s)).
Proof.
  intros (Hw & Hp & HQ & Ht & Hr & Hget & k & Hk & Hlog & Hrel & Hpath).
  destruct s as [[C frs Q0 w0 th rec0 op col] [opn fs0 sk]]. simpl in *. subst.
  assert (Hwr : forall f, alter (vw_write f) w sk !! w =
                          Some (mkVideoWriter (vw_path k) (vw_fourcc k) (vw_fps k)
                                  (vw_size k) (vw_isColor k) (vw_opened k)
                                  (vw_log k ++ [f]) false)).
  { intros f. rewrite list_lookup_alter_eq, Hk. simpl.
    unfold vw_write. rewrite Hrel. reflexivity. }
  split.
  - intros fuel Hfuel.
    destruct fuel as [|[|[|[|fuel]]]]; try lia.
    destruct pc as [| | |f| |]; try destruct q as [|f q];
      try (exfalso; apply Hget; reflexivity);
      destruct fuel; cbn; eexists; reflexivity.
  - intros fuel sj Hj. apply (kcw_join_mono _ _ _ 4) in Hj.
    rewrite Nat.add_comm in Hj.
    destruct pc as [| | |f| |]; try destruct q as [|f q];
      try (exfalso; apply Hget; reflexivity);
      destruct fuel; cbn in Hj; injection Hj as <-.
    all: first
      [ solve [kcw_joined_tac (@nil Frame) Hk Hwr]
      | solve [kcw_joined_tac [f] Hk Hwr] ].
Qed.

Lemma kcw_flush_loop_session w p rec q : forall log n (s : Sys K.t),
  length q <= n ->
  kcw_session w p log q K.Exited rec s ->
  exists s',
    K.flush_loop n s = Ok tt s' /\
    kcw_session w p (log ++ q) [] K.Exited rec s' /\
    fs (world s') = fs (world s).
Proof.
  induction q as [|f q IH]; intros log n s Hn Hs.
  - exists s. rewrite app_nil_r. split; [|auto].
    destruct Hs as (_ & _ & HQ & _).
    destruct n; [reflexivity|]. simpl. unfold bind, gets. rewrite HQ. reflexivity.
  - destruct n as [|n]; [simpl in Hn; lia|].
    pose proof Hs as (Hw & Hp & HQ & Ht & Hr & _ & k & Hk & Hlog & Hrel & Hpath).
    simpl. unfold bind at 1 2, gets. rewrite HQ. simpl.
    unfold bind at 1, on_self, modify.
    unfold bind at 1, K.writer_write. unfold bind at 1 2, gets. simpl.
    rewrite Hw. simpl. unfold on_world. simpl.
    match goal with
    | |- context [K.flush_loop n ?s1] =>
        destruct (IH (log ++ [f]) n s1) as (s' & Hf & Hs' & Hfs)
    end.
    + simpl in Hn. lia.
    + unfold kcw_session. simpl. repeat split; auto; try discriminate.
      exists (vw_write f k). split.
      { rewrite list_lookup_alter_eq, Hk. reflexivity. }
      unfold vw_write. rewrite Hrel. simpl. subst. auto.
    + exists s'. split; [exact Hf|]. rewrite <- app_assoc in Hs'.
      split; [exact Hs'|exact Hfs].
Qed.

Lemma kcw_flush_session w p rec log q (s : Sys K.t) :
  kcw_session w p log q K.Exited rec s ->
  exists s',
    K.flush s = Ok tt s' /\
    kcw_session w p (log ++ q) [] K.Exited rec s' /\
    fs (world s') = fs (world s).
Proof.
  intros Hs. pose proof Hs as (_ & _ & HQ & _).
  unfold K.flush, bind, gets. rewrite HQ. simpl.
  apply kcw_flush_loop_session; [lia|exact Hs].
Qed.

Lemma kcw_release_session w p log q pc rec (s : Sys K.t) :
  kcw_session w p log q pc rec s ->
  exists s',
    K.writer_release s = Ok tt s' /\
    self s' = self s /\
    fs (world s') = fs (world s) /\
    exists k, K.sink s' = Some k /\
              vw_log k = log /\ vw_released k = true /\ vw_path k = p.
Proof.
  intros (Hw & Hp & HQ & Ht & Hr & _ & k & Hk & Hlog & Hrel & Hpath).
  unfold K.writer_release, bind, gets. rewrite Hw. simpl.
  unfold on_world. simpl. eexists. split; [reflexivity|]. simpl.
  split; [reflexivity|]. split; [reflexivity|].
  exists (vw_release k). unfold K.sink. simpl. rewrite Hw. simpl.
  rewrite list_lookup_alter_eq, Hk. simpl. auto.
Qed.

Lemma kcw_flag_down_session w p log q pc rec (s : Sys K.t) :
  kcw_session w p log q pc rec s ->
  kcw_session w p log q pc false
    (mkSys (K.set_recording false (self s)) (world s)).
Proof.
  intros (Hw & Hp & HQ & Ht & Hr & Hget & Hk).
  unfold kcw_session. simpl. repeat split; auto.
Qed.

Lemma kcw_session_sink w p log q pc rec (s : Sys K.t) :
  kcw_session w p log q pc rec s ->
  exists k, K.sink s = Some k /\ vw_log k = log /\ vw_released k = false.
Proof.
  intros (Hw & _ & _ & _ & _ & _ & k & Hk & Hlog & Hrel & _).
  exists k. unfold K.sink. rewrite Hw. simpl. auto.
Qed.

(** [start] on an empty history: the index expression raises after the
    flag and the path have been assigned, before anything else is done. *)
Lemma kcw_start_empty p cc r col (s : Sys K.t) :
  K.frames (self s) = [] ->
  K.start p cc r col s =
  Raise IndexError
    (mkSys (K.set_outputPath (Some p) (K.set_recording true (self s))) (world s)).
Proof.
  destruct s as [[C frs q w th rec op col0] wd]. simpl. intros ->. reflexivity.
Qed.

Lemma kcw_start_Ok_nonempty p cc r col (s s1 : Sys K.t) :
  K.start p cc r col s = Ok tt s1 -> K.frames (self s) <> [].
Proof.
  intros H E. rewrite (kcw_start_empty _ _ _ _ _ E) in H. discriminate.
Qed.

(** C2 as stated fails when the pre-roll is empty: on a fresh recorder
    [start] raises, so there is no run of [start], the updates and [finish]
    after which the sink holds the pre-roll followed by the updates. *)
Lemma key_clip_empty_preroll_records_nothing :
  ~ (forall (s : Sys K.t) (p cc : string) (r : nat) (col : bool)
            (evs : list K.Event) (fuel : nat),
        K.no_thread (self s) ->
        length (K.frames (self s)) <= K.bufSize (self s) ->
        4 <= fuel ->
        exists s1 s2 s3 k,
          K.start p cc r col s = Ok tt s1 /\
          K.run evs s1 = Ok tt s2 /\
          K.finish fuel s2 = Ok tt s3 /\
          K.sink s3 = Some k /\
          vw_log k = K.history (self s) ++ K.pushed evs).
Proof.
  intros H.
  destruct (H (mkSys (K.init 5) disk0) "clip.avi" "XVID" 30 true
              [K.Update (fr 6)] 4 (or_introl eq_refl))
    as (s1 & _ & _ & _ & Hst & _); [simpl; lia|lia|].
  discriminate Hst.
Qed.

(** C2, as the code has it. A recording that starts on a non-empty rolling
    history runs to completion whatever the interleaving of [update] calls
    and writer-thread steps: [start] returns, every [update] returns,
    [finish] returns once the writer thread has been given the four steps it
    needs at most, and when [finish] has returned the sink opened by [start]
    has received exactly the history (oldest first) followed by the updated
    frames, in order, and is released; the thread has exited and the queue
    is empty. On an empty history [start] raises [IndexError] and the world
    is as before: no recording takes place. *)
Theorem key_clip_finish_writes_history_then_updates
    (s : Sys K.t) (p cc : string) (r : nat) (col : bool) :
  K.no_thread (self s) ->
  (K.frames (self s) <> [] ->
   exists s1,
     K.start p cc r col s = Ok tt s1 /\
     forall evs fuel, 4 <= fuel ->
     exists s2 s3 k,
       K.run evs s1 = Ok tt s2 /\
       K.finish fuel s2 = Ok tt s3 /\
       K.writer (self s3) = Some (length (sinks (world s))) /\
       K.sink s3 = Some k /\
       vw_path k = p /\
       vw_log k = K.history (self s) ++ K.pushed evs /\
       vw_released k = true /\
       K.thread (self s3) = Some K.Exited /\
       K.Q (self s3) = Some []) /\
  (K.frames (self s) = [] ->
   exists s', K.start p cc r col s = Raise IndexError s' /\ world s' = world s).
Proof.
  intros _. split.
  - intros Hne.
    destruct (kcw_start_session p cc r col s Hne) as (s1 & Hst & Hs1 & _).
    exists s1. split; [exact Hst|]. intros evs fuel Hfuel.
    destruct (kcw_run_session evs _ _ _ _ _ _ Hs1)
      as (s2 & log & q & pc & Hrun & Hs2 & Heq & _).
    pose proof (kcw_flag_down_session _ _ _ _ _ _ _ Hs2) as Hs2'.
    destruct (kcw_join_session _ _ _ _ _ _ Hs2') as [Htot Hout].
    destruct (Htot fuel Hfuel) as (sj & Hj).
    destruct (Hout fuel sj Hj) as (d & q' & Eq & _ & _ & Hsj & _).
    destruct (kcw_flush_session _ _ _ _ _ _ Hsj) as (sf & Hf & Hsf & _).
    destruct (kcw_release_session _ _ _ _ _ _ _ Hsf)
      as (s3 & Hrel & Hself & _ & k & Hk & Hlog & Hreleased & Hpath).
    exists s2, s3, k. split; [exact Hrun|]. split.
    { unfold K.finish, bind, on_self, modify. rewrite Hj, Hf. exact Hrel. }
    destruct Hsf as (Hw & _ & HQ & Ht & _).
    rewrite Hself. repeat split; auto.
    rewrite Hlog, <- !app_assoc, <- Eq, Heq. reflexivity.
  - intros E. eexists. split; [apply kcw_start_empty, E|reflexivity].
Qed.

Lemma key_clip_finish_writes_history_then_updates_witness :
  exists s3 k,
    (K.run (map K.Update [fr 1; fr 2; fr 3; fr 4; fr 5]) ;;
     K.start "clip.avi" "XVID" 30 true ;;
     K.run [K.Tick; K.Update (fr 6); K.Tick; K.Tick; K.Update (fr 7);
            K.Tick; K.Update (fr 8)] ;;
     K.finish 4) (mkSys (K.init 5) disk0) = Ok tt s3 /\
    K.sink s3 = Some k /\
    vw_log k = [fr 1; fr 2; fr 3; fr 4; fr 5; fr 6; fr 7; fr 8] /\
    vw_released k = true.
Proof.
  pose (s := state_of (K.run (map K.Update [fr 1; fr 2; fr 3; fr 4; fr 5])
                         (mkSys (K.init 5) disk0))).
  destruct (key_clip_finish_writes_history_then_updates s "clip.avi" "XVID" 30 true)
    as [H _]; [left; reflexivity|].
  destruct H as (s1 & Hst & H); [vm_compute; discriminate|].
  destruct (H [K.Tick; K.Update (fr 6); K.Tick; K.Tick; K.Update (fr 7);
               K.Tick; K.Update (fr 8)] 4 (le_n 4))
    as (s2 & s3 & k & Hrun & Hfin & _ & Hk & _ & Hlog & Hrel & _).
  exists s3, k.
  split; [|split; [exact Hk|split; [|exact Hrel]]].
  - unfold bind.
    change (K.run (map K.Update [fr 1; fr 2; fr 3; fr 4; fr 5])
              (mkSys (K.init 5) disk0)) with (Ok tt s).
    cbv beta iota. rewrite Hst. cbv beta iota. rewrite Hrun. exact Hfin.
  - rewrite Hlog. vm_compute. reflexivity.
Defined.

(** C5 as stated fails: on a fresh recorder [start] raises an [IndexError]
    and leaves the recording flag set and the output path assigned, so the
    recorder is not as it was before the call. *)
Lemma key_clip_start_empty_sets_recording :
  exists s',
    K.start "clip.avi" "XVID" 30 true (mkSys (K.init 64) disk0)
      = Raise IndexError s' /\
    K.recording (K.init 64) = false /\
    K.recording (self s') = true /\
    self s' <> K.init 64.
Proof.
  eexists. split; [reflexivity|]. simpl. repeat split. discriminate.
Qed.

(** C5, as the code has it. If [start] is called while the rolling history
    is empty, the call fails at once with an [IndexError], raised by
    [self.frames[0]]: no [VideoWriter] is constructed and no file created, no
    queue is made and no thread is started; the history, [Q], [writer] and
    [thread] are as before. The two assignments that precede the indexing
    stay: [recording] is [True] and [outputPath] is the given path. *)
Theorem key_clip_start_empty_history
    (s : Sys K.t) (p cc : string) (r : nat) (col : bool) :
  K.frames (self s) = [] ->
  exists s',
    K.start p cc r col s = Raise IndexError s' /\
    world s' = world s /\
    K.frames (self s') = K.frames (self s) /\
    K.Q (self s') = K.Q (self s) /\
    K.writer (self s') = K.writer (self s) /\
    K.thread (self s') = K.thread (self s) /\
    K.recording (self s') = true /\
    K.outputPath (self s') = Some p.
Proof.
  intros E. eexists. split; [apply kcw_start_empty, E|].
  simpl. repeat split.
Qed.

Lemma key_clip_start_empty_history_witness :
  K.frames (K.init 64) = [] /\
  exists s',
    K.start "clip.avi" "XVID" 30 true (mkSys (K.init 64) disk0)
      = Raise IndexError s' /\
    world s' = disk0 /\
    K.Q (self s') = None /\ K.writer (self s') = None /\
    K.thread (self s') = None /\ K.recording (self s') = true.
Proof.
  split; [reflexivity|].
  destruct (key_clip_start_empty_history (mkSys (K.init 64) disk0)
              "clip.avi" "XVID" 30 true eq_refl)
    as (s' & H & Hw & _ & HQ & Hwr & Ht & Hr & _).
  exists s'. repeat split; assumption.
Defined.

(** C7 as stated fails on a schedule in which the writer thread has passed
    its test of the recording flag when [terminate] is called: with the
    history [f1, f2] queued by [start] and nothing written yet, the thread
    takes [f1] from the queue and writes it while [terminate] waits in
    [join]. *)
Lemma key_clip_terminate_writes_queue_head :
  let s2 := state_of
              ((K.run [K.Update (fr 1); K.Update (fr 2)] ;;
                K.start "clip.avi" "XVID" 30 true ;;
                K.run [K.Tick]) (mkSys (K.init 64) disk0)) in
  K.thread (self s2) = Some K.AtEmpty /\
  K.Q (self s2) = Some [fr 1; fr 2] /\
  (vw_log <$> K.sink s2) = Some [] /\
  exists s3,
    K.terminate 4 s2 = Ok tt s3 /\
    (vw_log <$> K.sink s3) = Some [fr 1] /\
    K.Q (self s3) = Some [fr 2].
Proof.
  vm_compute. repeat split. eexists. repeat split.
Qed.

(** C7, as the code has it. Take any recording started with [start] on a
    recorder with no writer thread alive (fresh, or after the [finish] or
    [terminate] of an earlier recording) and continued by any interleaving
    of [update] calls and writer-thread steps.
    [terminate] returns when the output file could be created and the
    thread is given its four steps. When it has returned, the output path is
    not on disk and the sink is released; [terminate] itself wrote nothing:
    the frames still in the queue once the writer thread was joined ([q3])
    stay there, the sink holds exactly the frames that precede them. Of the
    frames [q2] in the queue when [terminate] was called, at most the first
    ([d]) was still written, by the writer thread ending the iteration it
    was in, after the frame it already held; none if the thread was at its
    flag test or asleep. *)
Theorem key_clip_terminate_discards_queue
    (s s1 s2 : Sys K.t) (p cc : string) (r : nat) (col : bool)
    (evs : list K.Event) :
  K.no_thread (self s) ->
  K.start p cc r col s = Ok tt s1 ->
  K.run evs s1 = Ok tt s2 ->
  (forall fuel, 4 <= fuel -> openable (world s) p = true ->
                exists s3, K.terminate fuel s2 = Ok tt s3) /\
  (forall fuel s3, K.terminate fuel s2 = Ok tt s3 ->
     (p ∉ fs (world s3)) /\
     exists k2 q2 pc2 k3 q3 d,
       K.sink s2 = Some k2 /\ K.Q (self s2) = Some q2 /\
       K.thread (self s2) = Some pc2 /\
       K.sink s3 = Some k3 /\ K.Q (self s3) = Some q3 /\
       vw_released k3 = true /\
       q2 = d ++ q3 /\ length d <= 1 /\
       (pc2 = K.AtFlag \/ pc2 = K.AtSleep -> d = []) /\
       vw_log k3 = vw_log k2 ++ K.in_flight (Some pc2) ++ d /\
       vw_log k3 ++ q3 = K.history (self s) ++ K.pushed evs).
Proof.
  intros _ Hst Hrun.
  pose proof (kcw_start_Ok_nonempty _ _ _ _ _ _ Hst) as Hne.
  destruct (kcw_start_session p cc r col s Hne)
    as (s1' & Hst' & Hs1 & _ & Hfs1 & _).
  rewrite Hst in Hst'. injection Hst' as <-.
  destruct (kcw_run_session evs _ _ _ _ _ _ Hs1)
    as (s2' & log & q & pc & Hrun' & Hs2 & Heq & Hfs2).
  rewrite Hrun in Hrun'. injection Hrun' as <-.
  pose proof (kcw_flag_down_session _ _ _ _ _ _ _ Hs2) as Hs2'.
  destruct (kcw_join_session _ _ _ _ _ _ Hs2') as [Htot Hout].
  assert (Hterm : forall fuel sj, K.join fuel
                    (mkSys (K.set_recording false (self s2)) (world s2)) = Ok tt sj ->
            exists sr k3, K.writer_release sj = Ok tt sr /\
              K.terminate fuel s2 =
                (if decide (p ∈ fs (world sr))
                 then Ok tt (mkSys (self sr)
                               (mkWorld (openable (world sr))
                                  (fs (world sr) ∖ {[ p ]}) (sinks (world sr))))
                 else Raise FileNotFoundError sr) /\
              fs (world sr) = fs (world s2) /\
              K.sink sr = Some k3 /\ vw_released k3 = true /\
              exists d q3, q = d ++ q3 /\ length d <= 1 /\
                (pc = K.AtFlag \/ pc = K.AtSleep -> d = []) /\
                K.Q (self sr) = Some q3 /\
                vw_log k3 = log ++ K.in_flight (Some pc) ++ d).
  { intros fuel sj Hj.
    destruct (Hout fuel sj Hj) as (d & q3 & Eq & Hd & Hpc & Hsj & Hfsj).
    destruct (kcw_release_session _ _ _ _ _ _ _ Hsj)
      as (sr & Hrel & Hself & Hfsr & k3 & Hk3 & Hlog3 & Hreleased & _).
    exists sr, k3. split; [exact Hrel|].
    destruct Hsj as (_ & Hp & HQ & _).
    split.
    { unfold K.terminate, bind, on_self, modify. rewrite Hj, Hrel.
      unfold gets. rewrite Hself, Hp. unfold on_world, os_remove.
      destruct (decide (p ∈ fs (world sr))); rewrite <- ?Hself;
        destruct sr; reflexivity. }
    split; [simpl in Hfsj; congruence|].
    split; [exact Hk3|]. split; [exact Hreleased|].
    exists d, q3. rewrite Hself.
    split; [exact Eq|]. split; [exact Hd|].
    split; [intros [|]; apply Hpc; auto|].
    split; [exact HQ|exact Hlog3]. }
  split.
  - intros fuel Hfuel Hopen.
    destruct (Htot fuel Hfuel) as (sj & Hj).
    destruct (Hterm fuel sj Hj) as (sr & k3 & _ & Ht & Hfsr & _).
    rewrite Ht. rewrite Hopen in Hfs1.
    destruct (decide (p ∈ fs (world sr))) as [_|Hnin]; [eauto|].
    exfalso. apply Hnin. rewrite Hfsr, Hfs2, Hfs1.
    apply elem_of_union_l, elem_of_singleton. reflexivity.
  - intros fuel s3 Hterm3.
    assert (exists sj, K.join fuel
              (mkSys (K.set_recording false (self s2)) (world s2)) = Ok tt sj)
      as (sj & Hj).
    { unfold K.terminate, bind, on_self, modify in Hterm3.
      destruct (K.join fuel _) as [[] sj|e sj|sj]; try discriminate. eauto. }
    destruct (Hterm fuel sj Hj)
      as (sr & k3 & _ & Ht & _ & Hk3 & Hreleased & d & q3 & Eq & Hd & Hpc & HQ3 & Hlog3).
    rewrite Ht in Hterm3.
    destruct (decide (p ∈ fs (world sr))); [|discriminate].
    injection Hterm3 as <-. simpl.
    split.
    { intros Hin. apply elem_of_difference in Hin as [_ Hin].
      apply Hin, elem_of_singleton. reflexivity. }
    destruct (kcw_session_sink _ _ _ _ _ _ _ Hs2) as (k2 & Hk2 & Hlog2 & _).
    destruct Hs2 as (_ & _ & HQ2 & Ht2 & _).
    exists k2, q, pc, k3, q3, d.
    repeat split; auto.
    + rewrite Hlog2. exact Hlog3.
    + rewrite Hlog3, <- !app_assoc, <- Eq, Heq. reflexivity.
Qed.

Lemma key_clip_terminate_discards_queue_witness :
  let s := state_of (K.run [K.Update (fr 1); K.Update (fr 2)]
                       (mkSys (K.init 64) disk0)) in
  let s1 := state_of (K.start "clip.avi" "XVID" 30 true s) in
  let s2 := state_of (K.run [K.Tick; K.Tick; K.Update (fr 3)] s1) in
  K.no_thread (self s) /\
  exists s3,
    K.terminate 4 s2 = Ok tt s3 /\
    ("clip.avi" ∉ fs (world s3)) /\
    (vw_log <$> K.sink s3) = Some [fr 1] /\
    K.Q (self s3) = Some [fr 2; fr 3].
Proof.
  intros s s1 s2.
  assert (Hno : K.no_thread (self s)) by (left; reflexivity).
  assert (Hst : K.start "clip.avi" "XVID" 30 true s = Ok tt s1)
    by (vm_compute; reflexivity).
  assert (Hrun : K.run [K.Tick; K.Tick; K.Update (fr 3)] s1 = Ok tt s2)
    by (vm_compute; reflexivity).
  split; [exact Hno|].
  destruct (key_clip_terminate_discards_queue s s1 s2 "clip.avi" "XVID" 30 true
              [K.Tick; K.Tick; K.Update (fr 3)] Hno Hst Hrun) as [Htot Hout].
  destruct (Htot 4 (le_n 4) eq_refl) as (s3 & Ht).
  destruct (Hout 4 s3 Ht) as (Hfs & _).
  exists s3. split; [exact Ht|]. split; [exact Hfs|].
  vm_compute in Ht. injection Ht as <-. split; reflexivity.
Defined.

(** ** [KeyClipWriter]: [finish] called again *)

Lemma kcw_write_step_recording (s : Sys K.t) :
  K.recording (self (K.write_step s)) = K.recording (self s).
Proof.
  destruct s as [[C frs q w th rec p col] wd]. cbn.
  destruct th as [[| | |f| |]|]; cbn; auto.
  - destruct rec; auto.
  - destruct q as [[|? ?]|]; auto.
  - destruct q as [[|? ?]|]; auto.
  - destruct w; auto.
Qed.

Lemma kcw_join_recording fuel : forall (s s' : Sys K.t),
  K.join fuel s = Ok tt s' -> K.recording (self s') = K.recording (self s).
Proof.
  induction fuel as [|fuel IH]; intros s s' H; simpl in H;
    destruct (K.thread (self s)) as [pc|]; try discriminate;
    destruct pc; try discriminate;
    try (injection H as <-; reflexivity);
    rewrite (IH _ _ H); apply kcw_write_step_recording.
Qed.

Lemma kcw_flush_loop_done n : forall (s s' : Sys K.t),
  K.flush_loop n s = Ok tt s' ->
  K.recording (self s') = K.recording (self s) /\
  K.thread (self s') = K.thread (self s) /\
  (forall q, K.Q (self s) = Some q -> length q <= n -> K.Q (self s') = Some []).
Proof.
  induction n as [|n IH]; intros s s' H.
  - injection H as <-. repeat split. intros q HQ Hn.
    destruct q; [exact HQ|simpl in Hn; lia].
  - simpl in H. unfold bind at 1 2, gets in H.
    destruct (K.Q (self s)) as [[|f q]|] eqn:HQ; simpl in H; try discriminate.
    + injection H as <-. repeat split. intros q' _ _. exact HQ.
    + unfold bind at 1, on_self, modify in H.
      unfold bind at 1, K.writer_write in H. unfold bind at 1 2, gets in H.
      simpl in H. destruct (K.writer (self s)) as [w|]; simpl in H;
        [|discriminate].
      unfold on_world in H. simpl in H.
      apply IH in H as (Hr & Ht & Hq). simpl in *.
      repeat split; auto.
      intros q' Eq' Hn. rewrite ?HQ in Eq'. injection Eq' as <-.
      apply (Hq q eq_refl). simpl in Hn. lia.
Qed.

Lemma vw_release_idem k : vw_release (vw_release k) = vw_release k.
Proof. reflexivity. Qed.

(** What [finish] leaves behind when it returns. *)
Lemma kcw_finish_Ok fuel (s s1 : Sys K.t) :
  K.finish fuel s = Ok tt s1 ->
  K.recording (self s1) = false /\
  K.thread (self s1) = Some K.Exited /\
  K.Q (self s1) = Some [] /\
  exists w, K.writer (self s1) = Some w /\
            alter vw_release w (sinks (world s1)) = sinks (world s1).
Proof.
  unfold K.finish. intros H.
  apply bind_Ok in H as ([] & sa & Ha & H).
  apply bind_Ok in H as ([] & sj & Hj & H).
  apply bind_Ok in H as ([] & sf & Hf & H).
  unfold on_self, modify in Ha. injection Ha as <-.
  pose proof (kcw_join_recording _ _ _ Hj) as Hrj.
  pose proof (kcw_join_exited _ _ _ Hj) as Htj. simpl in Hrj.
  unfold K.flush in Hf.
  apply bind_Ok in Hf as (oq & sf0 & Hg & Hf).
  unfold gets in Hg. injection Hg as <- <-.
  apply bind_Ok in Hf as (q & sf0 & Hd & Hf).
  destruct (K.Q (self sj)) as [q0|] eqn:HQ; [|discriminate].
  injection Hd as <- <-.
  apply kcw_flush_loop_done in Hf as (Hrf & Htf & Hqf).
  specialize (Hqf q0 HQ (le_n _)).
  unfold K.writer_release in H.
  apply bind_Ok in H as (ow & sr & Hg & H).
  unfold gets in Hg. injection Hg as <- <-.
  apply bind_Ok in H as (w & sr & Hd & H).
  destruct (K.writer (self sf)) as [w0|] eqn:Hw; [|discriminate].
  injection Hd as <- <-.
  unfold on_world in H. simpl in H. injection H as <-. simpl.
  repeat split; try congruence.
  exists w0. split; [exact Hw|].
  rewrite list_alter_alter_eq. apply list_alter_ext.
  - intros k _. apply vw_release_idem.
  - reflexivity.
Qed.

Lemma kcw_finish_again fuel (s : Sys K.t) w :
  K.recording (self s) = false ->
  K.thread (self s) = Some K.Exited ->
  K.Q (self s) = Some [] ->
  K.writer (self s) = Some w ->
  alter vw_release w (sinks (world s)) = sinks (world s) ->
  K.finish fuel s = Ok tt s.
Proof.
  destruct s as [[C frs q w0 th rec p col] [opn fs0 sk]]. simpl.
  intros -> -> -> -> Hsk.
  unfold K.finish, bind, on_self, modify. simpl.
  replace (K.join fuel _) with
    (Ok (S := Sys K.t) tt
       (mkSys (K.mk C frs (Some []) (Some w) (Some K.Exited) false p col)
              (mkWorld opn fs0 sk)))
    by (destruct fuel; reflexivity).
  simpl. unfold K.writer_release, bind, gets, on_world. simpl.
  rewrite Hsk. reflexivity.
Qed.

Lemma kcw_updates_idle l : forall (s : Sys K.t),
  K.recording (self s) = false ->
  exists frs,
    K.run (map K.Update l) s = Ok tt (mkSys (K.set_frames frs (self s)) (world s)).
Proof.
  induction l as [|f l IH]; intros s Hrec.
  - exists (K.frames (self s)). destruct s as [[] ?]. reflexivity.
  - simpl. unfold bind. rewrite kcw_update_eq. simpl. rewrite Hrec.
    destruct (IH (mkSys (K.set_frames
                           (deque_appendleft (K.bufSize (self s)) (K.frames (self s)) f)
                           (self s)) (world s)) Hrec) as (frs & H).
    exists frs. rewrite H. reflexivity.
Qed.

(** C8. Once [finish] has returned, calling it again returns at once and
    changes nothing: the recorder and the world (the sinks with their logs,
    the files) are exactly as the first call left them, so no frame is
    written twice and no sink is opened. The same holds when frames are
    passed to [update] between the two calls: they only enter the rolling
    history. *)
Theorem key_clip_finish_twice (s s1 : Sys K.t) (fuel : nat) :
  K.finish fuel s = Ok tt s1 ->
  forall fuel',
    K.finish fuel' s1 = Ok tt s1 /\
    forall l, exists s2,
      K.run (map K.Update l) s1 = Ok tt s2 /\
      world s2 = world s1 /\
      K.finish fuel' s2 = Ok tt s2.
Proof.
  intros H fuel'.
  destruct (kcw_finish_Ok _ _ _ H) as (Hr & Ht & HQ & w & Hw & Hsk).
  split.
  - apply (kcw_finish_again fuel' s1 w); assumption.
  - intros l. destruct (kcw_updates_idle l s1 Hr) as (frs & Hrun).
    eexists. split; [exact Hrun|]. split; [reflexivity|].
    apply (kcw_finish_again fuel' _ w); assumption.
Qed.

Lemma key_clip_finish_twice_witness :
  exists s1,
    (K.run [K.Update (fr 1); K.Update (fr 2)] ;;
     K.start "clip.avi" "XVID" 30 true ;;
     K.run [K.Tick; K.Update (fr 3)] ;;
     K.finish 4) (mkSys (K.init 64) disk0) = Ok tt s1 /\
    (vw_log <$> K.sink s1) = Some [fr 1; fr 2; fr 3] /\
    length (sinks (world s1)) = 1 /\
    K.finish 0 s1 = Ok tt s1.
Proof.
  pose (s := state_of ((K.run [K.Update (fr 1); K.Update (fr 2)] ;;
                        K.start "clip.avi" "XVID" 30 true ;;
                        K.run [K.Tick; K.Update (fr 3)])
                         (mkSys (K.init 64) disk0))).
  pose (s1 := state_of (K.finish 4 s)).
  assert (Hf : K.finish 4 s = Ok tt s1) by (vm_compute; reflexivity).
  exists s1. split; [vm_compute; reflexivity|].
  split; [vm_compute; reflexivity|]. split; [vm_compute; reflexivity|].
  exact (proj1 (key_clip_finish_twice s s1 4 Hf 0)).
Defined.

(** ** [VideoStream] *)

Lemma vs_produced_S src i n :
  V.produced src i (S n) = V.produced src i n ++ [snd (V.results src (i + n))].
Proof.
  unfold V.produced. rewrite seq_S, map_app. reflexivity.
Qed.

Lemma vs_inv_start src : vs_inv src (V.start (V.init src)).
Proof.
  unfold vs_inv, V.start, V.init. simpl.
  rewrite Nat.sub_diag. repeat split. lia.
Qed.

Lemma vs_inv_update_step src p : vs_inv src p -> vs_inv src (V.update_step p).
Proof.
  intros (Hres & Hpos & Hfr & Heq).
  destruct p as [[[res n] g f st q] pc ret]. simpl in *. subst res.
  unfold V.update_step. simpl.
  destruct pc as [| | |v|]; simpl in *; unfold vs_inv; simpl;
    try (repeat split; assumption || lia).
  - destruct st; repeat split; assumption || lia.
  - repeat split; try assumption; try lia.
    replace (n - V.pos src) with (S (n - S (V.pos src))) by lia.
    rewrite vs_produced_S, <- Heq, !app_nil_r.
    replace (S (V.pos src) + (n - S (V.pos src))) with n by lia.
    rewrite app_assoc. reflexivity.
  - repeat split; try assumption. rewrite app_nil_r, <- Heq. reflexivity.
Qed.

Lemma vs_inv_run src evs : forall p p',
  vs_inv src p -> V.run evs p = Some p' -> vs_inv src p'.
Proof.
  induction evs as [|[| |] evs IH]; intros p p' Hinv Hrun; simpl in Hrun.
  - injection Hrun as <-. exact Hinv.
  - apply (IH _ _ (vs_inv_update_step _ _ Hinv) Hrun).
  - destruct (V.read (V.obj p)) as [[v o]|] eqn:Er; [|discriminate].
    apply (IH _ _) in Hrun; [exact Hrun|].
    destruct Hinv as (Hres & Hpos & Hfr & Heq).
    destruct p as [[c g f st q] pc ret]. unfold V.read in Er. simpl in *.
    destruct q as [|v' q]; [discriminate|]. injection Er as <- <-.
    unfold vs_inv. simpl. repeat split; try assumption.
    rewrite <- Heq, <- app_assoc. reflexivity.
  - apply (IH _ _) in Hrun; [exact Hrun|].
    destruct Hinv as (Hres & Hpos & Hfr & Heq).
    unfold vs_inv. simpl. repeat split; assumption.
Qed.

Lemma vs_produced_prefix src i n l l' :
  l ++ l' = V.produced src i n -> l = V.produced src i (length l).
Proof.
  unfold V.produced. intros H.
  assert (length l <= n) as Hle.
  { apply (f_equal length) in H.
    rewrite length_app, length_map, length_seq in H. lia. }
  apply (f_equal (take (length l))) in H.
  rewrite take_app_length in H. rewrite H at 1.
  rewrite firstn_map, take_seq. f_equal. f_equal. lia.
Qed.

Lemma vs_lockstep_runs n : forall p,
  V.pc p = V.AtStopped -> V.stopped (V.obj p) = false -> V.Q (V.obj p) = [] ->
  exists p', V.run (vs_lockstep n) p = Some p' /\
             length (V.returned p') = length (V.returned p) + n.
Proof.
  induction n as [|n IH]; intros p Hpc Hst HQ.
  - exists p. split; [reflexivity|lia].
  - destruct p as [[[res i] g f st q] pc ret]. simpl in *. subst.
    cbn.
    match goal with
    | |- context [V.run (vs_lockstep n) ?p1] =>
        destruct (IH p1 eq_refl eq_refl eq_refl) as (p' & Hr & Hl)
    end.
    exists p'. split; [exact Hr|].
    rewrite Hl. simpl. rewrite length_app. simpl. lia.
Qed.

(** C4 as stated fails: with a capture that never fails and delivers frame
    [i] at its [i]-th read, the first value [read()] returns is frame 1, not
    frame 0, which [__init__] has read into [self.frame]. *)
Lemma video_stream_first_frame_not_returned :
  ~ (forall (src : V.Capture) (evs : list V.Event) (p : V.Proc),
        (forall i, fst (V.results src i) = true) ->
        V.run evs (V.start (V.init src)) = Some p ->
        V.returned p = V.produced src (V.pos src) (length (V.returned p))).
Proof.
  intros H.
  specialize (H cam_ok [V.Tick; V.Tick; V.Tick; V.Read] _ (fun _ => eq_refl) eq_refl).
  discriminate H.
Qed.

(** C4, as the code has it. Whatever the interleaving of the background
    loop with the caller's [read()] and [stop()] calls, the values [read()]
    has returned are, in order and each once, the images of the capture's
    results from the second one on; the first result stays in [self.frame],
    read by [__init__] and never put in the queue. Nothing read by the loop
    is lost: it has been returned, is in the queue, or is about to be put.
    And reads do return: for every [n] there is a schedule on which [n]
    reads have returned. *)
Theorem video_stream_reads_in_order (src : V.Capture) :
  (forall evs p,
     V.run evs (V.start (V.init src)) = Some p ->
     V.returned p = V.produced src (S (V.pos src)) (length (V.returned p)) /\
     V.frame (V.obj p) = snd (V.results src (V.pos src)) /\
     V.returned p ++ V.Q (V.obj p) ++ V.in_flight (V.pc p) =
       V.produced src (S (V.pos src))
         (V.pos (V.stream (V.obj p)) - S (V.pos src))) /\
  (forall n, exists evs p,
     V.run evs (V.start (V.init src)) = Some p /\
     V.returned p = V.produced src (S (V.pos src)) n).
Proof.
  split.
  - intros evs p Hrun.
    destruct (vs_inv_run src evs _ _ (vs_inv_start src) Hrun)
      as (_ & _ & Hfr & Heq).
    split; [|split; [exact Hfr|exact Heq]].
    eapply vs_produced_prefix. exact Heq.
  - intros n.
    destruct (vs_lockstep_runs n (V.start (V.init src)) eq_refl eq_refl eq_refl)
      as (p & Hrun & Hlen).
    exists (vs_lockstep n), p. split; [exact Hrun|].
    destruct (vs_inv_run src _ _ _ (vs_inv_start src) Hrun)
      as (_ & _ & _ & Heq).
    apply vs_produced_prefix in Heq. rewrite Heq. f_equal.
    rewrite Hlen. reflexivity.
Qed.

Lemma video_stream_reads_in_order_witness :
  exists p,
    V.run [V.Tick; V.Tick; V.Tick; V.Tick; V.Read; V.Tick; V.Tick; V.Read]
      (V.start (V.init cam_ok)) = Some p /\
    V.returned p = [Some (fr 1); Some (fr 2)] /\
    V.frame (V.obj p) = Some (fr 0).
Proof.
  eexists. split; [reflexivity|].
  destruct (proj1 (video_stream_reads_in_order cam_ok)
              [V.Tick; V.Tick; V.Tick; V.Tick; V.Read; V.Tick; V.Tick; V.Read]
              _ eq_refl) as (Hret & Hfr & _).
  split; [exact Hret|exact Hfr].
Defined.

(** C6 as stated fails: when the read number 1 of the capture fails, the
    loop iteration that made it puts the capture's empty image in the queue,
    and the next [read()] returns it. *)
Lemma video_stream_failed_read_is_enqueued :
  let p := V.start (V.init cam_miss) in
  V.pos (V.stream (V.obj p)) = 1 /\
  V.results cam_miss 1 = (false, None) /\
  V.Q (V.obj (V.update_step (V.update_step (V.update_step p)))) = [None] /\
  (V.returned <$> V.run [V.Tick; V.Tick; V.Tick; V.Read] p) = Some [None].
Proof.
  repeat split.
Qed.

(** C6, as the code has it. Every iteration of the background loop that
    finds [stopped] unset makes one read of the capture and puts the image
    of its result in the queue, whether the read reported success or not
    (the flag is dropped by the [[1]]): for a failed read the capture's
    empty image is enqueued. The read is not retried and nothing is raised;
    when the queue was empty the next [read()] returns that very value. *)
Theorem video_stream_enqueues_every_result
    (p : V.Proc) (ok : bool) (v : option Frame) :
  V.pc p = V.AtStopped ->
  V.stopped (V.obj p) = false ->
  V.results (V.stream (V.obj p)) (V.pos (V.stream (V.obj p))) = (ok, v) ->
  let p' := V.update_step (V.update_step (V.update_step p)) in
  V.Q (V.obj p') = V.Q (V.obj p) ++ [v] /\
  V.pos (V.stream (V.obj p')) = S (V.pos (V.stream (V.obj p))) /\
  V.pc p' = V.AtStopped /\
  V.returned p' = V.returned p /\
  (V.Q (V.obj p) = [] -> exists o, V.read (V.obj p') = Some (v, o)).
Proof.
  destruct p as [[[res n] g f st q] pc ret]. simpl.
  intros -> -> Hres. cbn. rewrite Hres. simpl.
  repeat split. intros ->. eexists. reflexivity.
Qed.

Lemma video_stream_enqueues_every_result_witness :
  let p := V.start (V.init cam_miss) in
  let p' := V.update_step (V.update_step (V.update_step p)) in
  V.Q (V.obj p') = [None] /\
  exists o, V.read (V.obj p') = Some (None, o).
Proof.
  intros p p'.
  destruct (video_stream_enqueues_every_result p false None
              eq_refl eq_refl eq_refl) as (HQ & _ & _ & _ & Hread).
  split; [exact HQ|exact (Hread eq_refl)].
Defined.

(** * Further properties *)

(** ** [KeyClipWriter]: sinks and files *)

Lemma kcw_start_eq p cc r col (s : Sys K.t) f0 frs :
  K.frames (self s) = f0 :: frs ->
  K.start p cc r col s =
  Ok tt
    (mkSys
       (K.mk (K.bufSize (self s)) (K.frames (self s))
          (Some (K.history (self s))) (Some (length (sinks (world s))))
          (Some K.AtFlag) true (Some p) (K.isColor (self s)))
       (mkWorld (openable (world s))
          (if openable (world s) p then {[ p ]} ∪ fs (world s)
           else fs (world s))
          (sinks (world s) ++
           [mkVideoWriter p cc r (snd (shape f0), fst (shape f0)) col
              (openable (world s) p) [] false]))).
Proof.
  destruct s as [[C frs0 q w th rec op col0] [opn fs0 sk]]. simpl.
  intros ->.
  unfold K.start. remember K.start_loop as loop eqn:Eloop.
  unfold bind, on_self, modify, gets, deque_index. simpl.
  unfold ret, on_world, VideoWriter_new. simpl. subst loop.
  match goal with
  | |- context [K.start_loop ?n ?s] =>
      rewrite (kcw_start_loop_eq n s []); [|simpl; lia|reflexivity]
  end.
  cbn [self world K.frames K.set_Q K.set_thread K.Q K.writer K.thread
       K.recording K.outputPath K.bufSize K.isColor fs sinks openable app].
  change (S (length frs)) with (length (f0 :: frs)).
  rewrite firstn_all. reflexivity.
Qed.

Lemma sinks_kept_refl w a : sinks_kept w a a.
Proof. unfold sinks_kept. auto. Qed.

Lemma sinks_kept_trans w a b c :
  sinks_kept w a b -> sinks_kept w b c -> sinks_kept w a c.
Proof.
  intros (H1 & H2 & H3 & H4) (H1' & H2' & H3' & H4').
  unfold sinks_kept. repeat split; congruence.
Qed.

Lemma sinks_kept_alter w f (a : World) :
  sinks_kept w a (mkWorld (openable a) (fs a) (alter f w (sinks a))).
Proof.
  unfold sinks_kept. simpl. repeat split.
  - apply length_alter.
  - apply take_alter_ge. lia.
Qed.

Lemma kcw_write_step_kept w (s : Sys K.t) :
  K.writer (self s) = Some w ->
  K.writer (self (K.write_step s)) = Some w /\
  sinks_kept w (world s) (world (K.write_step s)).
Proof.
  destruct s as [[C frs q w0 th rec p col] wd]. simpl. intros ->.
  unfold K.write_step. simpl.
  destruct th as [[| | |f| |]|]; simpl;
    try (split; [reflexivity|apply sinks_kept_refl]).
  - destruct rec; split; try reflexivity; apply sinks_kept_refl.
  - destruct q as [[|? ?]|]; split; try reflexivity; apply sinks_kept_refl.
  - destruct q as [[|? ?]|]; split; try reflexivity; apply sinks_kept_refl.
  - split; [reflexivity|]. apply sinks_kept_alter.
Qed.

Lemma kcw_update_world f (s s' : Sys K.t) :
  K.update f s = Ok tt s' ->
  world s' = world s /\ K.writer (self s') = K.writer (self s).
Proof.
  rewrite kcw_update_eq. simpl.
  destruct (K.recording (self s)); [destruct (K.Q (self s))|];
    intros H; inversion H; subst; simpl; auto.
Qed.

Lemma kcw_run_kept w evs : forall (s s' : Sys K.t),
  K.writer (self s) = Some w ->
  K.run evs s = Ok tt s' ->
  K.writer (self s') = Some w /\ sinks_kept w (world s) (world s').
Proof.
  induction evs as [|e evs IH]; intros s s' Hw Hrun.
  - inversion Hrun; subst. split; [exact Hw|apply sinks_kept_refl].
  - apply kcw_run_cons in Hrun as (s1 & He & Hrun). destruct e as [f|].
    + apply kcw_update_world in He as [Hwd Hw1]. rewrite Hw in Hw1.
      destruct (IH _ _ Hw1 Hrun) as [Hw' Hk]. rewrite Hwd in Hk. auto.
    + subst s1. destruct (kcw_write_step_kept w s Hw) as [Hw1 Hk1].
      destruct (IH _ _ Hw1 Hrun) as [Hw' Hk].
      split; [exact Hw'|]. eapply sinks_kept_trans; eassumption.
Qed.

Lemma kcw_join_kept w fuel : forall (s s' : Sys K.t),
  K.writer (self s) = Some w ->
  K.join fuel s = Ok tt s' ->
  K.writer (self s') = Some w /\ sinks_kept w (world s) (world s').
Proof.
  induction fuel as [|fuel IH]; intros s s' Hw H; simpl in H;
    destruct (K.thread (self s)) as [pc|]; try discriminate;
    destruct pc; try discriminate;
    try (injection H as <-; split; [exact Hw|apply sinks_kept_refl]);
    destruct (kcw_write_step_kept w s Hw) as [Hw1 Hk1];
    destruct (IH _ _ Hw1 H) as [Hw' Hk];
    (split; [exact Hw'|eapply sinks_kept_trans; eassumption]).
Qed.

Lemma kcw_flush_loop_kept w n : forall (s s' : Sys K.t),
  K.writer (self s) = Some w ->
  K.flush_loop n s = Ok tt s' ->
  K.writer (self s') = Some w /\ sinks_kept w (world s) (world s').
Proof.
  induction n as [|n IH]; intros s s' Hw H.
  - injection H as <-. split; [exact Hw|apply sinks_kept_refl].
  - simpl in H. unfold bind at 1 2, gets in H.
    destruct (K.Q (self s)) as [[|f q]|]; simpl in H; try discriminate.
    + injection H as <-. split; [exact Hw|apply sinks_kept_refl].
    + unfold bind at 1, on_self, modify in H.
      unfold bind at 1, K.writer_write in H. unfold bind at 1 2, gets in H.
      simpl in H. rewrite Hw in H. simpl in H.
      unfold on_world in H. simpl in H.
      apply IH in H as [Hw' Hk]; [|exact Hw].
      split; [exact Hw'|].
      eapply sinks_kept_trans; [apply (sinks_kept_alter w (vw_write f))|exact Hk].
Qed.

(** [finish] only touches the sink [self.writer] refers to. *)
Lemma kcw_finish_kept w fuel (s s' : Sys K.t) :
  K.writer (self s) = Some w ->
  K.finish fuel s = Ok tt s' ->
  K.writer (self s') = Some w /\ sinks_kept w (world s) (world s').
Proof.
  intros Hw H. unfold K.finish in H.
  apply bind_Ok in H as ([] & sa & Ha & H).
  apply bind_Ok in H as ([] & sj & Hj & H).
  apply bind_Ok in H as ([] & sf & Hf & H).
  unfold on_self, modify in Ha. injection Ha as <-.
  apply (kcw_join_kept w) in Hj as [Hwj Hkj]; [|exact Hw]. simpl in Hkj.
  unfold K.flush in Hf.
  apply bind_Ok in Hf as (oq & sf0 & Hg & Hf).
  unfold gets in Hg. injection Hg as <- <-.
  apply bind_Ok in Hf as (q & sf0 & Hd & Hf).
  destruct (K.Q (self sj)) as [q0|]; [|discriminate].
  injection Hd as <- <-.
  apply (kcw_flush_loop_kept w) in Hf as [Hwf Hkf]; [|exact Hwj].
  unfold K.writer_release, bind, gets in H. rewrite Hwf in H. simpl in H.
  unfold on_world in H. simpl in H. injection H as <-. simpl.
  split; [exact Hwf|].
  eapply sinks_kept_trans; [exact Hkj|].
  eapply sinks_kept_trans; [exact Hkf|]. apply sinks_kept_alter.
Qed.

Lemma kcw_start_Ok_eq p cc r col (s s1 : Sys K.t) :
  K.start p cc r col s = Ok tt s1 ->
  exists f0 k0,
    hd_error (K.frames (self s)) = Some f0 /\
    k0 = mkVideoWriter p cc r (snd (shape f0), fst (shape f0)) col
           (openable (world s) p) [] false /\
    K.writer (self s1) = Some (length (sinks (world s))) /\
    K.frames (self s1) = K.frames (self s) /\
    openable (world s1) = openable (world s) /\
    fs (world s1) =
      (if openable (world s) p then {[ p ]} ∪ fs (world s) else fs (world s)) /\
    sinks (world s1) = sinks (world s) ++ [k0].
Proof.
  intros H. destruct (K.frames (self s)) as [|f0 frs] eqn:Efr.
  - rewrite (kcw_start_empty _ _ _ _ _ Efr) in H. discriminate.
  - rewrite (kcw_start_eq _ _ _ _ _ _ _ Efr) in H. injection H as <-.
    exists f0, (mkVideoWriter p cc r (snd (shape f0), fst (shape f0)) col
                  (openable (world s) p) [] false).
    simpl. rewrite Efr. repeat split.
Qed.

Lemma sinks_kept_snoc (sk : list VideoWriter) k0 (a b : World) :
  sinks a = sk ++ [k0] ->
  sinks_kept (length sk) a b ->
  exists k, sinks b = sk ++ [k].
Proof.
  intros Ha (_ & _ & Hlen & Htake).
  rewrite Ha, length_app in Hlen. simpl in Hlen.
  rewrite Ha, take_app_length in Htake.
  rewrite <- (take_drop (length sk) (sinks b)), Htake.
  destruct (drop (length sk) (sinks b)) as [|k [|k' l]] eqn:Ed.
  - apply (f_equal length) in Ed. rewrite length_drop in Ed. simpl in Ed. lia.
  - exists k. reflexivity.
  - apply (f_equal length) in Ed. rewrite length_drop in Ed. simpl in Ed. lia.
Qed.

Lemma kcw_write_step_outputPath (s : Sys K.t) :
  K.outputPath (self (K.write_step s)) = K.outputPath (self s).
Proof.
  destruct s as [[C frs q w th rec p col] wd]. cbn.
  destruct th as [[| | |f| |]|]; cbn; auto.
  - destruct rec; auto.
  - destruct q as [[|? ?]|]; auto.
  - destruct q as [[|? ?]|]; auto.
  - destruct w; auto.
Qed.

Lemma kcw_join_outputPath fuel : forall (s s' : Sys K.t),
  K.join fuel s = Ok tt s' -> K.outputPath (self s') = K.outputPath (self s).
Proof.
  induction fuel as [|fuel IH]; intros s s' H; simpl in H;
    destruct (K.thread (self s)) as [pc|]; try discriminate;
    destruct pc; try discriminate;
    try (injection H as <-; reflexivity);
    rewrite (IH _ _ H); apply kcw_write_step_outputPath.
Qed.

(** What [terminate] has done when it returns: only the sink
    [self.writer] refers to may have changed, and the file at
    [self.outputPath], which was there, is gone. *)
Lemma kcw_terminate_Ok w fuel (s s' : Sys K.t) :
  K.writer (self s) = Some w ->
  K.terminate fuel s = Ok tt s' ->
  K.writer (self s') = Some w /\
  K.recording (self s') = false /\
  K.thread (self s') = Some K.Exited /\
  alter vw_release w (sinks (world s')) = sinks (world s') /\
  length (sinks (world s')) = length (sinks (world s)) /\
  take w (sinks (world s')) = take w (sinks (world s)) /\
  openable (world s') = openable (world s) /\
  exists p, K.outputPath (self s) = Some p /\
            K.outputPath (self s') = Some p /\
            p ∈ fs (world s) /\ fs (world s') = fs (world s) ∖ {[ p ]}.
Proof.
  intros Hw H. unfold K.terminate in H.
  apply bind_Ok in H as ([] & sa & Ha & H).
  apply bind_Ok in H as ([] & sj & Hj & H).
  apply bind_Ok in H as ([] & sr & Hr & H).
  apply bind_Ok in H as (op & sr0 & Hg & H).
  unfold on_self, modify in Ha. injection Ha as <-.
  pose proof (kcw_join_outputPath _ _ _ Hj) as Hop.
  pose proof (kcw_join_recording _ _ _ Hj) as Hrec.
  pose proof (kcw_join_exited _ _ _ Hj) as Hth.
  apply (kcw_join_kept w) in Hj as [Hwj (Ho & Hfs & Hlen & Htk)]; [|exact Hw].
  simpl in *.
  unfold K.writer_release, bind, gets in Hr. rewrite Hwj in Hr. simpl in Hr.
  unfold on_world in Hr. simpl in Hr. injection Hr as <-.
  unfold gets in Hg. injection Hg as <- <-. simpl in H.
  rewrite Hop in H.
  destruct (K.outputPath (self s)) as [p|] eqn:Ep; [|discriminate].
  unfold on_world, os_remove in H. simpl in H.
  destruct (decide (p ∈ fs (world sj))) as [Hin|]; [|discriminate].
  injection H as <-. simpl.
  rewrite length_alter, take_alter_ge by lia.
  repeat split; auto.
  - rewrite list_alter_alter_eq. apply list_alter_ext; [|reflexivity].
    intros k _. apply vw_release_idem.
  - exists p. rewrite Hop, <- Hfs. auto.
Qed.

(** X4. A recording started with no writer thread alive that ends with
    [finish] or [terminate] constructs exactly one [VideoWriter], the one
    [self.writer] then refers to, and leaves every sink that existed before
    [start] as it was. *)
Theorem key_clip_recording_adds_one_sink
    (s s1 s2 : Sys K.t) (p cc : string) (r : nat) (col : bool)
    (evs : list K.Event) :
  K.no_thread (self s) ->
  K.start p cc r col s = Ok tt s1 ->
  K.run evs s1 = Ok tt s2 ->
  forall fuel s3,
    K.finish fuel s2 = Ok tt s3 \/ K.terminate fuel s2 = Ok tt s3 ->
    exists k,
      sinks (world s3) = sinks (world s) ++ [k] /\
      K.sink s3 = Some k /\ vw_path k = p /\ vw_released k = true.
Proof.
  intros _ Hst Hrun fuel s3 Hend.
  destruct (kcw_start_Ok_eq _ _ _ _ _ _ Hst)
    as (f0 & k0 & _ & Ek0 & Hw1 & _ & _ & _ & Hsk1).
  destruct (kcw_run_kept _ _ _ _ Hw1 Hrun) as [Hw2 Hk2].
  pose proof (kcw_start_Ok_nonempty _ _ _ _ _ _ Hst) as Hne.
  destruct (kcw_start_session p cc r col s Hne) as (s1' & Hst' & Hs1 & _).
  rewrite Hst in Hst'. injection Hst' as <-.
  destruct (kcw_run_session evs _ _ _ _ _ _ Hs1)
    as (s2' & log & q & pc & Hrun' & Hs2 & _).
  rewrite Hrun in Hrun'. injection Hrun' as <-.
  assert (exists k3, K.writer (self s3) = Some (length (sinks (world s))) /\
                     sinks (world s3) = sinks (world s) ++ [k3] /\
                     alter vw_release (length (sinks (world s))) (sinks (world s3))
                       = sinks (world s3)) as (k3 & Hw3 & Hsk3 & Hrel).
  { destruct Hend as [Hfin|Hterm].
    - destruct (kcw_finish_kept _ _ _ _ Hw2 Hfin) as [Hw3 Hk3].
      destruct (sinks_kept_snoc _ _ _ _ Hsk1
                  (sinks_kept_trans _ _ _ _ Hk2 Hk3)) as (k3 & Hsk3).
      destruct (kcw_finish_Ok _ _ _ Hfin) as (_ & _ & _ & w & Hw & Hrel).
      rewrite Hw3 in Hw. injection Hw as <-. eauto.
    - destruct (kcw_terminate_Ok _ _ _ _ Hw2 Hterm)
        as (Hw3 & _ & _ & Hrel & Hlen & Htk & Ho & _).
      destruct Hk2 as (Ho2 & Hfs2 & Hlen2 & Htk2).
      assert (sinks_kept (length (sinks (world s))) (world s1)
                (mkWorld (openable (world s1)) (fs (world s1)) (sinks (world s3))))
        as Hk by (unfold sinks_kept; simpl; repeat split; congruence).
      destruct (sinks_kept_snoc _ _ _ _ Hsk1 Hk) as (k3 & Hsk3). eauto. }
  exists k3. split; [exact Hsk3|].
  assert (K.sink s3 = Some k3) as Hsink.
  { unfold K.sink. rewrite Hw3. simpl. rewrite Hsk3.
    apply list_lookup_middle. reflexivity. }
  split; [exact Hsink|].
  rewrite Hsk3 in Hrel.
  replace (length (sinks (world s))) with (length (sinks (world s)) + 0) in Hrel
    by lia.
  rewrite alter_app_r in Hrel. apply app_inv_head in Hrel.
  simpl in Hrel. injection Hrel as Hrel.
  split; [|rewrite <- Hrel; reflexivity].
  (* the path: the sink is the one the recording writes to *)
  destruct Hend as [Hfin|Hterm].
  - pose proof (kcw_flag_down_session _ _ _ _ _ _ _ Hs2) as Hs2'.
    destruct (kcw_join_session _ _ _ _ _ _ Hs2') as [_ Hout].
    unfold K.finish in Hfin.
    apply bind_Ok in Hfin as ([] & sa & Ha & Hfin).
    apply bind_Ok in Hfin as ([] & sj & Hj & Hfin).
    apply bind_Ok in Hfin as ([] & sf & Hf & Hfin).
    unfold on_self, modify in Ha. injection Ha as <-.
    destruct (Hout fuel sj Hj) as (d & q' & _ & _ & _ & Hsj & _).
    destruct (kcw_flush_session _ _ _ _ _ _ Hsj) as (sf' & Hf' & Hsf & _).
    rewrite Hf in Hf'. injection Hf' as <-.
    destruct (kcw_release_session _ _ _ _ _ _ _ Hsf)
      as (s3' & Hrel' & _ & _ & k & Hk & _ & _ & Hpath).
    rewrite Hfin in Hrel'. injection Hrel' as <-. congruence.
  - pose proof (kcw_flag_down_session _ _ _ _ _ _ _ Hs2) as Hs2'.
    destruct (kcw_join_session _ _ _ _ _ _ Hs2') as [_ Hout].
    unfold K.terminate in Hterm.
    apply bind_Ok in Hterm as ([] & sa & Ha & Hterm).
    apply bind_Ok in Hterm as ([] & sj & Hj & Hterm).
    apply bind_Ok in Hterm as ([] & sr & Hr & Hterm).
    unfold on_self, modify in Ha. injection Ha as <-.
    destruct (Hout fuel sj Hj) as (d & q' & _ & _ & _ & Hsj & _).
    destruct (kcw_release_session _ _ _ _ _ _ _ Hsj)
      as (sr' & Hrel' & _ & _ & k & Hk & _ & _ & Hpath).
    rewrite Hr in Hrel'. injection Hrel' as <-.
    assert (K.sink s3 = K.sink sr) as Es.
    { apply bind_Ok in Hterm as (op & sr0 & Hg & Hterm).
      unfold gets in Hg. injection Hg as <- <-.
      destruct (K.outputPath (self sr)); [|discriminate].
      unfold on_world, os_remove in Hterm. simpl in Hterm.
      destruct (decide _); [|discriminate].
      injection Hterm as <-. reflexivity. }
    congruence.
Qed.

Lemma key_clip_recording_adds_one_sink_witness :
  let s := state_of (K.run [K.Update (fr 1); K.Update (fr 2)]
                       (mkSys (K.init 64) disk0)) in
  let s1 := state_of (K.start "a.avi" "XVID" 30 true s) in
  let s2 := state_of (K.run [K.Tick; K.Update (fr 3)] s1) in
  let s3 := state_of (K.finish 4 s2) in
  let s4 := state_of (K.start "b.avi" "XVID" 30 true s3) in
  let s5 := state_of (K.run [K.Update (fr 4)] s4) in
  exists s6 k,
    K.finish 4 s5 = Ok tt s6 /\
    sinks (world s6) = sinks (world s3) ++ [k] /\
    vw_path k = "b.avi".
Proof.
  intros s s1 s2 s3 s4 s5.
  assert (Hst : K.start "b.avi" "XVID" 30 true s3 = Ok tt s4)
    by (vm_compute; reflexivity).
  assert (Hrun : K.run [K.Update (fr 4)] s4 = Ok tt s5)
    by (vm_compute; reflexivity).
  assert (Hfin : K.finish 4 s5 = Ok tt (state_of (K.finish 4 s5)))
    by (vm_compute; reflexivity).
  assert (Hno : K.no_thread (self s3)) by (right; vm_compute; reflexivity).
  destruct (key_clip_recording_adds_one_sink s3 s4 s5 "b.avi" "XVID" 30 true
              [K.Update (fr 4)] Hno Hst Hrun 4 _ (or_introl Hfin))
    as (k & Hsk & _ & Hp & _).
  eexists _, k. split; [exact Hfin|]. split; [exact Hsk|exact Hp].
Defined.

(** X5. [finish] deletes nothing and creates nothing: when it returns, the
    files on disk are those that were there before [start], plus the output
    path if the encoder could create it. *)
Theorem key_clip_finish_keeps_output_file
    (s s1 s2 s3 : Sys K.t) (p cc : string) (r : nat) (col : bool)
    (evs : list K.Event) (fuel : nat) :
  K.start p cc r col s = Ok tt s1 ->
  K.run evs s1 = Ok tt s2 ->
  K.finish fuel s2 = Ok tt s3 ->
  fs (world s3) =
    (if openable (world s) p then {[ p ]} ∪ fs (world s) else fs (world s)) /\
  (openable (world s) p = true -> p ∈ fs (world s3)).
Proof.
  intros Hst Hrun Hfin.
  destruct (kcw_start_Ok_eq _ _ _ _ _ _ Hst)
    as (f0 & k0 & _ & _ & Hw1 & _ & _ & Hfs1 & _).
  destruct (kcw_run_kept _ _ _ _ Hw1 Hrun) as [Hw2 (_ & Hfs2 & _)].
  destruct (kcw_finish_kept _ _ _ _ Hw2 Hfin) as [_ (_ & Hfs3 & _)].
  assert (fs (world s3) =
            (if openable (world s) p then {[ p ]} ∪ fs (world s)
             else fs (world s))) as E by congruence.
  split; [exact E|]. intros Ho. rewrite E, Ho.
  apply elem_of_union_l, elem_of_singleton. reflexivity.
Qed.

Lemma key_clip_finish_keeps_output_file_witness :
  let s := state_of (K.run [K.Update (fr 1)] (mkSys (K.init 64) disk0)) in
  let s1 := state_of (K.start "a.avi" "XVID" 30 true s) in
  let s2 := state_of (K.run [K.Tick; K.Update (fr 2)] s1) in
  "a.avi" ∈ fs (world (state_of (K.finish 4 s2))).
Proof.
  intros s s1 s2.
  assert (Hst : K.start "a.avi" "XVID" 30 true s = Ok tt s1)
    by (vm_compute; reflexivity).
  assert (Hrun : K.run [K.Tick; K.Update (fr 2)] s1 = Ok tt s2)
    by (vm_compute; reflexivity).
  assert (Hfin : K.finish 4 s2 = Ok tt (state_of (K.finish 4 s2)))
    by (vm_compute; reflexivity).
  exact (proj2 (key_clip_finish_keeps_output_file s s1 s2 _ "a.avi" "XVID" 30
                  true [K.Tick; K.Update (fr 2)] 4 Hst Hrun Hfin) eq_refl).
Defined.




(** ** [KeyClipWriter]: the writer thread during a recording *)

(** X1. At every point of a recording started with no writer thread
    alive, whatever the interleaving, no frame is lost, duplicated or
    reordered: the frames already written, then the one
    the writer thread holds, then the queue, are the history at [start]
    followed by the frames passed to [update] so far. So what the sink has
    received is always a prefix of that sequence, and the sink is not yet
    released. *)
Theorem key_clip_writes_in_arrival_order
    (s s1 s2 : Sys K.t) (p cc : string) (r : nat) (col : bool)
    (evs : list K.Event) :
  K.no_thread (self s) ->
  K.start p cc r col s = Ok tt s1 ->
  K.run evs s1 = Ok tt s2 ->
  exists k q,
    K.sink s2 = Some k /\ K.Q (self s2) = Some q /\
    vw_released k = false /\
    vw_log k ++ K.in_flight (K.thread (self s2)) ++ q =
      K.history (self s) ++ K.pushed evs /\
    vw_log k `prefix_of` K.history (self s) ++ K.pushed evs.
Proof.
  intros _ Hst Hrun.
  pose proof (kcw_start_Ok_nonempty _ _ _ _ _ _ Hst) as Hne.
  destruct (kcw_start_session p cc r col s Hne) as (s1' & Hst' & Hs1 & _).
  rewrite Hst in Hst'. injection Hst' as <-.
  destruct (kcw_run_session evs _ _ _ _ _ _ Hs1)
    as (s2' & log & q & pc & Hrun' & Hs2 & Heq & _).
  rewrite Hrun in Hrun'. injection Hrun' as <-.
  destruct (kcw_session_sink _ _ _ _ _ _ _ Hs2) as (k & Hk & Hlog & Hrel).
  destruct Hs2 as (_ & _ & HQ & Ht & _).
  exists k, q. rewrite Ht, Hlog.
  split; [exact Hk|]. split; [exact HQ|]. split; [exact Hrel|].
  split; [exact Heq|].
  exists (K.in_flight (Some pc) ++ q). symmetry. exact Heq.
Qed.

Lemma key_clip_writes_in_arrival_order_witness :
  let s := state_of (K.run [K.Update (fr 1); K.Update (fr 2)]
                       (mkSys (K.init 64) disk0)) in
  let s1 := state_of (K.start "a.avi" "XVID" 30 true s) in
  let evs := [K.Tick; K.Tick; K.Tick; K.Update (fr 3); K.Tick; K.Tick] in
  exists k,
    K.sink (state_of (K.run evs s1)) = Some k /\
    vw_log k `prefix_of` [fr 1; fr 2; fr 3].
Proof.
  intros s s1 evs.
  assert (Hst : K.start "a.avi" "XVID" 30 true s = Ok tt s1)
    by (vm_compute; reflexivity).
  assert (Hrun : K.run evs s1 = Ok tt (state_of (K.run evs s1)))
    by (vm_compute; reflexivity).
  assert (Hno : K.no_thread (self s)) by (left; vm_compute; reflexivity).
  destruct (key_clip_writes_in_arrival_order s s1 _ "a.avi" "XVID" 30 true evs
              Hno Hst Hrun) as (k & q & Hk & _ & _ & _ & Hpre).
  exists k. split; [exact Hk|exact Hpre].
Defined.

Lemma kcw_drain_round w p log f q (s : Sys K.t) :
  kcw_session w p log (f :: q) K.AtFlag true s ->
  exists s',
    K.run [K.Tick; K.Tick; K.Tick; K.Tick] s = Ok tt s' /\
    kcw_session w p (log ++ [f]) q K.AtFlag true s'.
Proof.
  intros (Hw & Hp & HQ & Ht & Hr & _ & k & Hk & Hlog & Hrel & Hpath).
  destruct s as [[C frs Q0 w0 th rec0 op col] [opn fs0 sk]]. simpl in *. subst.
  eexists. split; [reflexivity|].
  unfold kcw_session. cbn. repeat split; try discriminate.
  exists (vw_write f k). split.
  { rewrite list_lookup_alter_eq, Hk. reflexivity. }
  unfold vw_write. rewrite Hrel. simpl. auto.
Qed.

Lemma kcw_drain w p q : forall log (s : Sys K.t),
  kcw_session w p log q K.AtFlag true s ->
  exists s',
    K.run (replicate (4 * length q) K.Tick) s = Ok tt s' /\
    kcw_session w p (log ++ q) [] K.AtFlag true s'.
Proof.
  induction q as [|f q IH]; intros log s Hs.
  - exists s. rewrite app_nil_r. split; [reflexivity|exact Hs].
  - destruct (kcw_drain_round _ _ _ _ _ _ Hs) as (s1 & Hr1 & Hs1).
    destruct (IH _ _ Hs1) as (s' & Hr & Hs').
    exists s'. split; [|rewrite <- app_assoc in Hs'; exact Hs'].
    replace (4 * length (f :: q)) with (4 + 4 * length q) by (simpl; lia).
    change (replicate (4 + 4 * length q) K.Tick)
      with (K.Tick :: K.Tick :: K.Tick :: K.Tick
              :: replicate (4 * length q) K.Tick).
    simpl in Hr1 |- *. unfold bind, modify, ret in Hr1 |- *.
    injection Hr1 as ->. exact Hr.
Qed.

(** X2. The writer thread keeps up when it is given time: after a [start]
    called with no writer thread alive, four
    thread steps per queued frame, with no [update] in between, write the
    whole history to the sink in order and leave the queue empty, the thread
    back at the head of its loop. *)
Theorem key_clip_thread_drains_queue
    (s s1 : Sys K.t) (p cc : string) (r : nat) (col : bool) :
  K.no_thread (self s) ->
  K.start p cc r col s = Ok tt s1 ->
  exists s2 k,
    K.run (replicate (4 * length (K.frames (self s))) K.Tick) s1 = Ok tt s2 /\
    K.sink s2 = Some k /\
    vw_log k = K.history (self s) /\
    K.Q (self s2) = Some [] /\
    K.thread (self s2) = Some K.AtFlag.
Proof.
  intros _ Hst.
  pose proof (kcw_start_Ok_nonempty _ _ _ _ _ _ Hst) as Hne.
  destruct (kcw_start_session p cc r col s Hne) as (s1' & Hst' & Hs1 & _).
  rewrite Hst in Hst'. injection Hst' as <-.
  destruct (kcw_drain _ _ _ _ _ Hs1) as (s2 & Hrun & Hs2).
  unfold K.history in Hrun. rewrite length_rev in Hrun.
  destruct (kcw_session_sink _ _ _ _ _ _ _ Hs2) as (k & Hk & Hlog & _).
  destruct Hs2 as (_ & _ & HQ & Ht & _).
  exists s2, k. auto.
Qed.

Lemma key_clip_thread_drains_queue_witness :
  let s := state_of (K.run [K.Update (fr 1); K.Update (fr 2)]
                       (mkSys (K.init 64) disk0)) in
  exists s2 k,
    K.run (replicate 8 K.Tick)
      (state_of (K.start "a.avi" "XVID" 30 true s)) = Ok tt s2 /\
    K.sink s2 = Some k /\ vw_log k = [fr 1; fr 2].
Proof.
  intros s.
  assert (Hst : K.start "a.avi" "XVID" 30 true s =
                Ok tt (state_of (K.start "a.avi" "XVID" 30 true s)))
    by (vm_compute; reflexivity).
  assert (Hno : K.no_thread (self s)) by (left; vm_compute; reflexivity).
  destruct (key_clip_thread_drains_queue s _ "a.avi" "XVID" 30 true Hno Hst)
    as (s2 & k & Hrun & Hk & Hlog & _).
  exists s2, k. split; [exact Hrun|]. split; [exact Hk|exact Hlog].
Defined.

Lemma kcw_alive_write_step (s : Sys K.t) :
  kcw_alive (self s) -> kcw_alive (self (K.write_step s)).
Proof.
  intros (Hr & [q HQ] & [w Hw] & pc & Ht & Hpc).
  destruct s as [[C frs Q0 w0 th rec0 op col] wd]. simpl in *. subst.
  unfold K.write_step, kcw_alive. simpl.
  destruct pc as [| | |f| |]; try contradiction; simpl;
    try destruct q; simpl; repeat split; eauto;
    try (eexists; split; [reflexivity|discriminate]).
Qed.

Lemma kcw_alive_run evs : forall (s s' : Sys K.t),
  kcw_alive (self s) -> K.run evs s = Ok tt s' -> kcw_alive (self s').
Proof.
  induction evs as [|e evs IH]; intros s s' Ha Hrun.
  - inversion Hrun; subst. exact Ha.
  - apply kcw_run_cons in Hrun as (s1 & He & Hrun).
    apply (IH s1 s'); [|exact Hrun]. destruct e as [f|].
    + destruct Ha as (Hr & [q HQ] & Hw & Ht).
      rewrite kcw_update_eq in He. simpl in He. rewrite Hr, HQ in He.
      injection He as <-. unfold kcw_alive. simpl. repeat split; eauto.
    + subst s1. apply kcw_alive_write_step, Ha.
Qed.

Lemma kcw_alive_join fuel : forall (s : Sys K.t),
  kcw_alive (self s) -> exists s', K.join fuel s = Blocked s'.
Proof.
  induction fuel as [|fuel IH]; intros s Ha.
  - destruct Ha as (_ & _ & _ & pc & Ht & Hpc). simpl. rewrite Ht.
    destruct pc; try contradiction; eauto.
  - pose proof (kcw_alive_write_step s Ha) as Ha'.
    destruct Ha as (_ & _ & _ & pc & Ht & Hpc). simpl. rewrite Ht.
    destruct pc; try contradiction; apply IH, Ha'.
Qed.

(** X3. While a recording is under way the writer thread never returns,
    whatever the schedule: it leaves its loop only after [finish] or
    [terminate] has cleared the flag. Waiting for it with the flag still up
    would never end, however long the wait. *)
Theorem key_clip_thread_runs_until_flag_cleared
    (s s1 s2 : Sys K.t) (p cc : string) (r : nat) (col : bool)
    (evs : list K.Event) :
  K.start p cc r col s = Ok tt s1 ->
  K.run evs s1 = Ok tt s2 ->
  K.recording (self s2) = true /\
  K.thread (self s2) <> Some K.Exited /\
  forall fuel, exists s', K.join fuel s2 = Blocked s'.
Proof.
  intros Hst Hrun.
  assert (kcw_alive (self s1)) as Ha1.
  { destruct (K.frames (self s)) as [|f0 frs] eqn:Efr.
    - rewrite (kcw_start_empty _ _ _ _ _ Efr) in Hst. discriminate.
    - rewrite (kcw_start_eq _ _ _ _ _ _ _ Efr) in Hst. injection Hst as <-.
      unfold kcw_alive. simpl. repeat split; eauto;
        try (eexists; split; [reflexivity|discriminate]). }
  pose proof (kcw_alive_run _ _ _ Ha1 Hrun) as Ha2.
  split; [apply Ha2|]. split.
  - destruct Ha2 as (_ & _ & _ & pc & Ht & Hpc). rewrite Ht. congruence.
  - intros fuel. apply kcw_alive_join, Ha2.
Qed.

Lemma key_clip_thread_runs_until_flag_cleared_witness :
  let s := state_of (K.run [K.Update (fr 1)] (mkSys (K.init 64) disk0)) in
  let s1 := state_of (K.start "a.avi" "XVID" 30 true s) in
  let s2 := state_of (K.run [K.Tick; K.Tick; K.Tick; K.Tick; K.Tick] s1) in
  exists s', K.join 100 s2 = Blocked s'.
Proof.
  intros s s1 s2.
  assert (Hst : K.start "a.avi" "XVID" 30 true s = Ok tt s1)
    by (vm_compute; reflexivity).
  assert (Hrun : K.run [K.Tick; K.Tick; K.Tick; K.Tick; K.Tick] s1 = Ok tt s2)
    by (vm_compute; reflexivity).
  exact (proj2 (proj2 (key_clip_thread_runs_until_flag_cleared s s1 s2
                         "a.avi" "XVID" 30 true _ Hst Hrun)) 100).
Defined.

(** ** [KeyClipWriter]: calls out of turn *)

Lemma kcw_write_step_writer (s : Sys K.t) :
  K.writer (self (K.write_step s)) = K.writer (self s).
Proof.
  destruct s as [[C frs q w th rec p col] wd]. cbn.
  destruct th as [[| | |f| |]|]; cbn; auto.
  - destruct rec; auto.
  - destruct q as [[|? ?]|]; auto.
  - destruct q as [[|? ?]|]; auto.
  - destruct w; auto.
Qed.

Lemma kcw_join_writer fuel : forall (s s' : Sys K.t),
  K.join fuel s = Ok tt s' -> K.writer (self s') = K.writer (self s).
Proof.
  induction fuel as [|fuel IH]; intros s s' H; simpl in H;
    destruct (K.thread (self s)) as [pc|]; try discriminate;
    destruct pc; try discriminate;
    try (injection H as <-; reflexivity);
    rewrite (IH _ _ H); apply kcw_write_step_writer.
Qed.

Lemma kcw_terminate_Ok_writer fuel (s s1 : Sys K.t) :
  K.terminate fuel s = Ok tt s1 -> exists w, K.writer (self s) = Some w.
Proof.
  intros H. unfold K.terminate in H.
  apply bind_Ok in H as ([] & sa & Ha & H).
  apply bind_Ok in H as ([] & sj & Hj & H).
  apply bind_Ok in H as ([] & sr & Hr & _).
  unfold on_self, modify in Ha. injection Ha as <-.
  apply kcw_join_writer in Hj. simpl in Hj.
  unfold K.writer_release, bind, gets in Hr. rewrite Hj in Hr.
  destruct (K.writer (self s)) as [w|]; [eauto|discriminate].
Qed.

(** X7. [terminate] is not repeatable: once it has returned, a second call
    finds the thread joined and the writer released, then fails in
    [os.remove] with [FileNotFoundError], the file being gone already; it
    changes nothing. *)
Theorem key_clip_terminate_twice (s s1 : Sys K.t) (fuel fuel' : nat) :
  K.terminate fuel s = Ok tt s1 ->
  K.terminate fuel' s1 = Raise FileNotFoundError s1.
Proof.
  intros H.
  destruct (kcw_terminate_Ok_writer _ _ _ H) as [w Hw].
  destruct (kcw_terminate_Ok _ _ _ _ Hw H)
    as (Hw1 & Hrec & Hth & Hrel & _ & _ & _ & p & _ & Hp1 & _ & Hfs).
  destruct s1 as [[C frs q w1 th rec p1 col] [opn fs1 sk]]. simpl in *. subst.
  unfold K.terminate, bind, on_self, modify. simpl.
  replace (K.join fuel' _) with
    (Ok (S := Sys K.t) tt
       (mkSys (K.mk C frs q (Some w) (Some K.Exited) false (Some p) col)
              (mkWorld opn (fs (world s) ∖ {[ p ]}) sk)))
    by (destruct fuel'; reflexivity).
  simpl. unfold K.writer_release, bind, gets, on_world. simpl.
  rewrite Hrel. unfold os_remove. simpl.
  destruct (decide (p ∈ fs (world s) ∖ {[ p ]})) as [Hin|]; [|reflexivity].
  exfalso. apply elem_of_difference in Hin as [_ Hin].
  apply Hin, elem_of_singleton. reflexivity.
Qed.

Lemma key_clip_terminate_twice_witness :
  let s := state_of
             ((K.run [K.Update (fr 1)] ;;
               K.start "a.avi" "XVID" 30 true ;;
               K.run [K.Tick; K.Update (fr 2)]) (mkSys (K.init 64) disk0)) in
  exists s1, K.terminate 4 s = Ok tt s1 /\
             K.terminate 0 s1 = Raise FileNotFoundError s1.
Proof.
  intros s.
  assert (Ht : K.terminate 4 s = Ok tt (state_of (K.terminate 4 s)))
    by (vm_compute; reflexivity).
  eexists. split; [exact Ht|].
  exact (key_clip_terminate_twice s _ 4 0 Ht).
Defined.

(** X8. When the encoder could not create the output file of a recording
    started with no writer thread alive, [terminate] still stops the
    recording - the thread is joined, the writer released - and
    then fails in [os.remove] with [FileNotFoundError]; the files on disk are
    as before [start]. *)
Theorem key_clip_terminate_without_file
    (s s1 s2 : Sys K.t) (p cc : string) (r : nat) (col : bool)
    (evs : list K.Event) (fuel : nat) :
  K.no_thread (self s) ->
  K.start p cc r col s = Ok tt s1 ->
  K.run evs s1 = Ok tt s2 ->
  openable (world s) p = false ->
  p ∉ fs (world s) ->
  4 <= fuel ->
  exists s3 k,
    K.terminate fuel s2 = Raise FileNotFoundError s3 /\
    K.recording (self s3) = false /\
    K.thread (self s3) = Some K.Exited /\
    K.sink s3 = Some k /\ vw_released k = true /\
    fs (world s3) = fs (world s).
Proof.
  intros _ Hst Hrun Hopen Hnin Hfuel.
  pose proof (kcw_start_Ok_nonempty _ _ _ _ _ _ Hst) as Hne.
  destruct (kcw_start_session p cc r col s Hne)
    as (s1' & Hst' & Hs1 & _ & Hfs1 & _).
  rewrite Hst in Hst'. injection Hst' as <-. rewrite Hopen in Hfs1.
  destruct (kcw_run_session evs _ _ _ _ _ _ Hs1)
    as (s2' & log & q & pc & Hrun' & Hs2 & _ & Hfs2).
  rewrite Hrun in Hrun'. injection Hrun' as <-.
  pose proof (kcw_flag_down_session _ _ _ _ _ _ _ Hs2) as Hs2'.
  destruct (kcw_join_session _ _ _ _ _ _ Hs2') as [Htot Hout].
  destruct (Htot fuel Hfuel) as (sj & Hj).
  destruct (Hout fuel sj Hj) as (d & q' & _ & _ & _ & Hsj & Hfsj).
  simpl in Hfsj.
  destruct (kcw_release_session _ _ _ _ _ _ _ Hsj)
    as (sr & Hrel & Hself & Hfsr & k & Hk & _ & Hreleased & _).
  destruct Hsj as (_ & Hp & _ & Ht & Hr & _).
  assert (fs (world sr) = fs (world s)) as Hfs by congruence.
  exists sr, k. split.
  { unfold K.terminate, bind, on_self, modify. rewrite Hj, Hrel.
    unfold gets. rewrite Hself, Hp. unfold on_world, os_remove.
    destruct (decide (p ∈ fs (world sr))) as [Hin|].
    - rewrite Hfs in Hin. contradiction.
    - destruct sr. simpl in *. subst. reflexivity. }
  rewrite Hself. auto.
Qed.

Lemma key_clip_terminate_without_file_witness :
  let w := mkWorld (fun _ => false) ∅ [] in
  let s := state_of (K.run [K.Update (fr 1)] (mkSys (K.init 64) w)) in
  let s1 := state_of (K.start "/no/such/dir/a.avi" "XVID" 30 true s) in
  let s2 := state_of (K.run [K.Tick; K.Update (fr 2)] s1) in
  exists s3, K.terminate 4 s2 = Raise FileNotFoundError s3 /\
             K.thread (self s3) = Some K.Exited.
Proof.
  intros w s s1 s2.
  assert (Hst : K.start "/no/such/dir/a.avi" "XVID" 30 true s = Ok tt s1)
    by (vm_compute; reflexivity).
  assert (Hrun : K.run [K.Tick; K.Update (fr 2)] s1 = Ok tt s2)
    by (vm_compute; reflexivity).
  assert (Hno : K.no_thread (self s)) by (left; vm_compute; reflexivity).
  destruct (key_clip_terminate_without_file s s1 s2 "/no/such/dir/a.avi" "XVID"
              30 true _ 4 Hno Hst Hrun eq_refl (not_elem_of_empty _) (le_n 4))
    as (s3 & k & Ht & _ & Hth & _).
  exists s3. split; [exact Ht|exact Hth].
Defined.

(** X9. [finish] and [terminate] on a recorder that has never started a
    recording - fresh, or only fed frames - raise [AttributeError] at
    [self.thread.join()], the thread being [None]; nothing is written,
    released or removed. *)
Theorem key_clip_finish_before_start
    (C : nat) (w : World) (l : list Frame) (fuel : nat) :
  exists s,
    K.run (map K.Update l) (mkSys (K.init C) w) = Ok tt s /\
    world s = w /\
    K.finish fuel s = Raise AttributeError s /\
    K.terminate fuel s = Raise AttributeError s.
Proof.
  destruct (kcw_updates_idle l (mkSys (K.init C) w) eq_refl) as (frs & Hrun).
  eexists. split; [exact Hrun|]. simpl. split; [reflexivity|].
  unfold K.finish, K.terminate, bind, on_self, modify. simpl.
  destruct fuel; split; reflexivity.
Qed.

(** X10. After [start] has failed on an empty history, the recorder is left
    with the flag up and no queue: every [update] then raises
    [AttributeError] at [self.Q.put], after the frame has entered the rolling
    history; and since the history is no longer empty, the next [start]
    succeeds, with that frame as its whole pre-roll. *)
Theorem key_clip_update_after_failed_start
    (s : Sys K.t) (f : Frame) (p cc p' cc' : string) (r r' : nat)
    (col col' : bool) :
  K.frames (self s) = [] ->
  K.Q (self s) = None ->
  0 < K.bufSize (self s) ->
  exists s1 s2 s3,
    K.start p cc r col s = Raise IndexError s1 /\
    K.update f s1 = Raise AttributeError s2 /\
    K.frames (self s2) = [f] /\ world s2 = world s /\
    K.start p' cc' r' col' s2 = Ok tt s3 /\
    K.Q (self s3) = Some [f] /\
    K.thread (self s3) = Some K.AtFlag.
Proof.
  intros Hfr HQ HC.
  destruct s as [[C frs q w th rec op col0] wd]. simpl in *. subst.
  assert (deque_appendleft C [] f = [f]) as E.
  { unfold deque_appendleft. simpl.
    destruct (decide (C < 1)); [lia|reflexivity]. }
  exists (mkSys (K.mk C [] None w th true (Some p) col0) wd),
         (mkSys (K.mk C [f] None w th true (Some p) col0) wd).
  eexists. split; [reflexivity|].
  split. { rewrite kcw_update_eq. cbn [self world K.recording K.Q K.bufSize
             K.frames K.set_frames K.writer K.thread K.outputPath K.isColor].
           rewrite E. reflexivity. }
  split; [reflexivity|]. split; [reflexivity|].
  erewrite kcw_start_eq by reflexivity.
  split; [reflexivity|]. simpl. auto.
Qed.

Lemma key_clip_update_after_failed_start_witness :
  exists s1 s2 s3,
    K.start "a.avi" "XVID" 30 true (mkSys (K.init 64) disk0)
      = Raise IndexError s1 /\
    K.update (fr 1) s1 = Raise AttributeError s2 /\
    K.start "b.avi" "XVID" 30 true s2 = Ok tt s3 /\
    K.Q (self s3) = Some [fr 1].
Proof.
  destruct (key_clip_update_after_failed_start (mkSys (K.init 64) disk0) (fr 1)
              "a.avi" "XVID" "b.avi" "XVID" 30 30 true true
              eq_refl eq_refl (ltac:(vm_compute; lia)))
    as (s1 & s2 & s3 & H1 & H2 & _ & _ & H3 & HQ & _).
  exists s1, s2, s3. auto.
Defined.

(** X11. A recorder built with [bufSize = 0] keeps no history, so it can never
    start a recording: after any frames, [start] raises [IndexError]. *)
Theorem key_clip_zero_capacity_never_starts
    (w : World) (evs : list K.Event) (s : Sys K.t)
    (p cc : string) (r : nat) (col : bool) :
  K.run evs (mkSys (K.init 0) w) = Ok tt s ->
  K.frames (self s) = [] /\
  exists s', K.start p cc r col s = Raise IndexError s'.
Proof.
  intros Hrun.
  destruct (kcw_run_history evs (mkSys (K.init 0) w) s (le_n 0) Hrun)
    as (_ & Hlen & _). simpl in Hlen.
  assert (K.frames (self s) = []) as E
    by (destruct (K.frames (self s)); [reflexivity|simpl in Hlen; lia]).
  split; [exact E|]. eexists. apply kcw_start_empty, E.
Qed.

Lemma key_clip_zero_capacity_never_starts_witness :
  exists s',
    K.start "a.avi" "XVID" 30 true
      (state_of (K.run [K.Update (fr 1); K.Update (fr 2)]
                   (mkSys (K.init 0) disk0)))
    = Raise IndexError s'.
Proof.
  exact (proj2 (key_clip_zero_capacity_never_starts disk0
                  [K.Update (fr 1); K.Update (fr 2)] _ "a.avi" "XVID" 30 true
                  eq_refl)).
Defined.

(** ** [ShortClipWriter]: written whole or not at all *)





(** X14. The pending sequence in closed form: after [start] on a history [P] and
    updates [U], [Q] is [P] followed by the first [rec_max_frames + 1 - |P|]
    updates, in order, and the overflow flag is up exactly when there was an
    update and [P] and [U] together count more than [rec_max_frames + 1]
    frames. Whatever the recorder did before ([toolong], [Q] of an earlier
    recording) plays no part. *)
Theorem short_clip_pending_sequence
    (s : Sys S.t) (p cc : string) (r : nat) (col : bool) (U : list Frame) :
  exists s',
    S.run (S.Start p cc r col :: map S.Update U) s = Ok tt s' /\
    S.Q (self s') =
      Some (S.frames (self s) ++
            take (S.rec_max_frames (self s) + 1 - length (S.frames (self s))) U) /\
    S.toolong (self s') =
      bool_decide (U <> [] /\
                   S.rec_max_frames (self s) + 1
                     < length (S.frames (self s)) + length U) /\
    S.recording (self s') = true /\
    world s' = world s.
Proof.
  destruct s as [[C L P q ths rec op tl fc fps0 ic] wd].
  change (S.run (S.Start p cc r col :: map S.Update U)
            (mkSys (S.mk C L P q ths rec op tl fc fps0 ic) wd))
    with (S.run (map S.Update U)
            (mkSys (S.mk C L P (Some P) ths true (Some p) false (Some cc) r col) wd)).
  destruct (scw_updates_recording L U
              (mkSys (S.mk C L P (Some P) ths true (Some p) false (Some cc) r col) wd)
              P eq_refl eq_refl eq_refl) as (frs & ->).
  eexists. split; [reflexivity|]. simpl. auto.
Qed.

Lemma scw_updates_idle l : forall (s : Sys S.t),
  S.recording (self s) = false ->
  exists frs,
    S.run (map S.Update l) s = Ok tt (mkSys (S.set_frames frs (self s)) (world s)).
Proof.
  induction l as [|f l IH]; intros s Hrec.
  - exists (S.frames (self s)). destruct s as [[] ?]. reflexivity.
  - simpl. unfold bind. rewrite scw_update_eq. simpl. rewrite Hrec.
    destruct (IH (mkSys (S.set_frames
                           (deque_append (S.bufSize (self s)) (S.frames (self s)) f)
                           (self s)) (world s)) Hrec) as (frs & H).
    exists frs. rewrite H. reflexivity.
Qed.

(** X15. [finish] on a recorder that has never started a recording does start
    a writer thread (the overflow flag is down), and the thread dies with
    [AttributeError] at [self.Q.copy()], [Q] being [None]: no sink is
    constructed and no file created. *)
Theorem short_clip_finish_before_start
    (C L : nat) (w : World) (l : list Frame) :
  exists s,
    S.run (map S.Update l ++ [S.Finish; S.RunThread 0]) (mkSys (S.init C L) w)
      = Ok tt s /\
    S.threads (self s) = [S.Exited (Some AttributeError)] /\
    world s = w.
Proof.
  rewrite scw_run_app. unfold bind at 1.
  destruct (scw_updates_idle l (mkSys (S.init C L) w) eq_refl) as (frs & ->).
  eexists. split; [reflexivity|]. simpl. auto.
Qed.

(** X16. The writer thread reads the recorder when it runs, not when [finish]
    starts it. If [start] is called again before a waiting thread has run,
    that thread writes the new recording's pending sequence - the history at
    the second [start] - to the new path with the new parameters; what was
    pending when [finish] was called is not written. *)
Theorem short_clip_thread_reads_state_at_run_time
    (s : Sys S.t) (i : nat) (p cc : string) (r : nat) (col : bool)
    (f0 : Frame) (rest : list Frame) :
  S.threads (self s) !! i = Some S.Started ->
  S.frames (self s) = f0 :: rest ->
  exists s',
    S.run [S.Start p cc r col; S.RunThread i] s = Ok tt s' /\
    S.threads (self s') = <[i := S.Exited None]> (S.threads (self s)) /\
    sinks (world s') =
      sinks (world s) ++
      [mkVideoWriter p cc r (snd (shape f0), fst (shape f0)) col
         (openable (world s) p) (f0 :: rest) true] /\
    fs (world s') =
      (if openable (world s) p then {[ p ]} ∪ fs (world s) else fs (world s)).
Proof.
  intros Hth Hfr.
  destruct s as [[C L P q ths rec op tl fc fps0 ic] wd]. simpl in *. subst.
  eexists. split.
  { simpl. unfold bind. rewrite scw_start_eq. simpl. unfold modify, ret.
    rewrite scw_run_thread_started by exact Hth.
    rewrite (scw_write_eq f0 rest p cc) by reflexivity. reflexivity. }
  simpl. auto.
Qed.

Lemma short_clip_thread_reads_state_at_run_time_witness :
  let s := state_of
             (S.run [S.Update (fr 1); S.Start "a.avi" "XVID" 30 true;
                     S.Update (fr 2); S.Finish; S.Update (fr 3)]
                (mkSys (S.init 2 200) disk0)) in
  S.Q (self s) = Some [fr 1; fr 2] /\
  exists s',
    S.run [S.Start "b.avi" "XVID" 30 true; S.RunThread 0] s = Ok tt s' /\
    sinks (world s') =
      [mkVideoWriter "b.avi" "XVID" 30 (640, 480) true true [fr 2; fr 3] true].
Proof.
  intros s. split; [reflexivity|].
  destruct (short_clip_thread_reads_state_at_run_time s 0 "b.avi" "XVID" 30 true
              (fr 2) [fr 3] eq_refl eq_refl) as (s' & Hrun & _ & Hsk & _).
  exists s'. split; [exact Hrun|exact Hsk].
Defined.

(** ** [VideoStream]: stopping *)

Lemma vs_stopped_update_step (p : V.Proc) :
  V.stopped (V.obj p) = true ->
  let p' := V.update_step p in
  V.stopped (V.obj p') = true /\
  V.returned p' = V.returned p /\
  length (V.Q (V.obj p')) + vs_pending_puts (V.pc p') =
    length (V.Q (V.obj p)) + vs_pending_puts (V.pc p) /\
  V.pos (V.stream (V.obj p')) <= V.pos (V.stream (V.obj p)) + 1 /\
  (V.pos (V.stream (V.obj p')) = V.pos (V.stream (V.obj p)) \/
   V.pc p = V.AtRead) /\
  vs_steps_left (V.pc p') = vs_steps_left (V.pc p) - 1 /\
  (V.pc p' = V.NotStarted <-> V.pc p = V.NotStarted).
Proof.
  destruct p as [[[res n] g f st q] pc ret]. simpl. intros ->.
  unfold V.update_step. simpl.
  destruct pc as [| | |v|]; simpl; rewrite ?length_app; simpl;
    repeat split; auto; try lia; try discriminate.
Qed.

Lemma vs_stopped_run evs : forall (p p' : V.Proc),
  V.stopped (V.obj p) = true ->
  V.run evs p = Some p' ->
  V.stopped (V.obj p') = true /\
  length (V.returned p') + length (V.Q (V.obj p')) + vs_pending_puts (V.pc p') =
    length (V.returned p) + length (V.Q (V.obj p)) + vs_pending_puts (V.pc p) /\
  vs_steps_left (V.pc p') = vs_steps_left (V.pc p) - vs_ticks evs /\
  (V.pc p' = V.NotStarted <-> V.pc p = V.NotStarted).
Proof.
  induction evs as [|[| |] evs IH]; intros p p' Hst Hrun; simpl in Hrun.
  - injection Hrun as <-. simpl. repeat split; auto; lia.
  - destruct (vs_stopped_update_step p Hst)
      as (Hst1 & Hret1 & Hq1 & _ & _ & Hsl1 & Hns1).
    destruct (IH _ _ Hst1 Hrun) as (Hst' & Hq' & Hsl' & Hns').
    simpl. rewrite Hret1 in Hq'.
    repeat split; [exact Hst'|lia|lia|tauto|tauto].
  - destruct p as [[c g f st q] pc ret]. unfold V.read in Hrun. simpl in *.
    destruct q as [|v q]; [discriminate|]. subst st.
    apply IH in Hrun as (Hst' & Hq' & Hsl' & Hns'); [|reflexivity].
    simpl in *. rewrite length_app in Hq'. simpl in Hq'.
    repeat split; [exact Hst'|lia|exact Hsl'|tauto|tauto].
  - apply IH in Hrun as (Hst' & Hq' & Hsl' & Hns'); [|reflexivity].
    simpl in *. repeat split; [exact Hst'|exact Hq'|exact Hsl'|tauto|tauto].
Qed.

(** X17. After [stop()], whatever the schedule, the background loop puts at most
    one more value in the queue - the one whose read it had begun - and,
    once it has been given three steps, it has returned. *)
Theorem video_stream_stop_at_most_one_more
    (p p' : V.Proc) (evs : list V.Event) :
  V.run (V.Stop :: evs) p = Some p' ->
  V.stopped (V.obj p') = true /\
  length (V.returned p') + length (V.Q (V.obj p')) <=
    length (V.returned p) + length (V.Q (V.obj p)) + 1 /\
  (V.pc p = V.AtStopped \/ V.pc p = V.Exited \/ V.pc p = V.NotStarted ->
   length (V.returned p') + length (V.Q (V.obj p')) =
     length (V.returned p) + length (V.Q (V.obj p))) /\
  (3 <= vs_ticks evs -> V.pc p <> V.NotStarted -> V.pc p' = V.Exited).
Proof.
  intros Hrun. simpl in Hrun.
  apply vs_stopped_run in Hrun as (Hst & Hq & Hsl & Hns); [|reflexivity].
  simpl in *. split; [exact Hst|]. split; [|split].
  - destruct (V.pc p), (V.pc p'); simpl in *; lia.
  - intros [E|[E|E]]; rewrite E in Hq; destruct (V.pc p'); simpl in *;
      try lia; rewrite E in Hsl; simpl in Hsl; try discriminate;
      rewrite E in Hns; destruct Hns as [Hn1 Hn2];
      try (specialize (Hn2 eq_refl); discriminate); lia.
  - intros Ht Hne.
    destruct (V.pc p') eqn:E; simpl in Hsl; try reflexivity;
      try (destruct (V.pc p); simpl in Hsl; lia).
    exfalso. apply Hne, Hns. reflexivity.
Qed.

Lemma video_stream_stop_at_most_one_more_witness :
  exists p',
    V.run [V.Stop; V.Tick; V.Tick; V.Tick; V.Tick; V.Tick]
      (V.update_step (V.update_step (V.start (V.init cam_ok)))) = Some p' /\
    V.Q (V.obj p') = [Some (fr 1)] /\ V.pc p' = V.Exited.
Proof.
  eexists. split; [reflexivity|]. split; [reflexivity|].
  apply (video_stream_stop_at_most_one_more
           (V.update_step (V.update_step (V.start (V.init cam_ok)))) _
           [V.Tick; V.Tick; V.Tick; V.Tick; V.Tick] eq_refl);
    [simpl; lia|discriminate].
Defined.

(** X18. [read()] can wait for ever: once the background loop has returned (or
    was never started) and the queue is empty, nothing can fill the queue
    again, so no schedule contains a completed [read()]. *)
Theorem video_stream_read_never_returns_after_exit
    (p : V.Proc) (evs : list V.Event) :
  V.pc p = V.Exited \/ V.pc p = V.NotStarted ->
  V.Q (V.obj p) = [] ->
  In V.Read evs ->
  V.run evs p = None.
Proof.
  revert p. induction evs as [|e evs IH]; intros p Hpc HQ Hin; [destruct Hin|].
  destruct e; simpl.
  - destruct Hin as [|Hin]; [discriminate|].
    assert (V.update_step p = p) as ->
      by (unfold V.update_step; destruct Hpc as [E|E]; rewrite E; reflexivity).
    apply IH; assumption.
  - unfold V.read. rewrite HQ. reflexivity.
  - destruct Hin as [|Hin]; [discriminate|]. apply IH; [exact Hpc|exact HQ|exact Hin].
Qed.

Lemma video_stream_read_never_returns_after_exit_witness :
  V.run [V.Stop; V.Tick; V.Read] (V.start (V.init cam_ok)) = None.
Proof.
  change (V.run [V.Read]
            (V.update_step (V.mkProc (V.stop (V.obj (V.start (V.init cam_ok))))
                              V.AtStopped [])) = None).
  apply video_stream_read_never_returns_after_exit;
    [left; reflexivity|reflexivity|left; reflexivity].
Defined.
